(** * Time-series transformers: Swin-MAE masking pipeline and ViT patch stage

    A shallow embedding of the locally written logic of the two models:
    the random masking stage, the positional slice, the classification
    head and its training modes, the reconstruction loss, the checkpoint
    naming (class [Swin_MAE]), and the patch reshape, the patch encoder
    and the load / evaluate life cycle (class [ViT]).

    Conventions.
    - Tensor entries of the layers are rationals ([Q]): their sums and
      products are exact.  The two places where the source's arithmetic
      is decided by rounding, the keep length [len_keep] and the
      reconstruction loss, are computed in IEEE-754 binary32 / binary64
      with the [SpecFloat] operations.
    - A batch is a list of samples, a sample a list of rows (patches or
      time steps), a row a list of entries.
    - The framework's layers with trained, transcendental internals
      (attention, normalisation, the gelu MLP) are fields of the model
      record: functions from sequences to sequences.
    - A Python exception is a [Raise] result. *)

From Stdlib Require Import String Ascii.
From Stdlib Require Import ZArith QArith Qround List Bool Lia.
From Stdlib Require Import Permutation Sorted.
From Stdlib Require Import Floats.SpecFloat.
Import ListNotations.

Set Implicit Arguments.
Close Scope Q_scope.
Open Scope nat_scope.

(** ** Exceptions *)

Inductive exn : Type :=
| InvalidArgumentError   (* TensorFlow: shapes or ranks that do not fit *)
| ValueError             (* Keras / scikit-learn: bad argument value *)
| IndexError             (* Python: list index out of range *)
| NotFittedError         (* scikit-learn: estimator used before fit *)
| RuntimeError.          (* Keras: a model used before compile *)

Inductive result (A : Type) : Type :=
| Ok (a : A)
| Raise (e : exn).

Arguments Ok {A} a.
Arguments Raise {A} e.

Definition bind {A B : Type} (r : result A) (k : A -> result B) : result B :=
  match r with
  | Ok a => k a
  | Raise e => Raise e
  end.

Notation "x <- r ;; k" := (bind r (fun x => k))
  (at level 61, r at next level, right associativity).

Definition is_ok {A : Type} (r : result A) : bool :=
  match r with Ok _ => true | Raise _ => false end.

(** ** The keep length, in floating point

    [len_keep = tf.cast(tf.cast(L, tf.float32) * (1 - self.mask_ratio), tf.int32)].
    [1 - self.mask_ratio] is a Python float subtraction (binary64); the
    product with a float32 tensor converts that scalar to binary32 and
    multiplies in binary32; the cast to int32 truncates toward zero. *)

Module Float.

Definition b64_of_Z (n : Z) : spec_float := binary_normalize 53 1024 n 0 false.
Definition b64_sub : spec_float -> spec_float -> spec_float := SFsub 53 1024.
Definition b64_div : spec_float -> spec_float -> spec_float := SFdiv 53 1024.

Definition b32_of_Z (n : Z) : spec_float := binary_normalize 24 128 n 0 false.
Definition b32_mul : spec_float -> spec_float -> spec_float := SFmul 24 128.
Definition b32_add : spec_float -> spec_float -> spec_float := SFadd 24 128.
Definition b32_sub : spec_float -> spec_float -> spec_float := SFsub 24 128.
Definition b32_div : spec_float -> spec_float -> spec_float := SFdiv 24 128.

(** Conversion of a Python float to a float32 constant: round to nearest even. *)
Definition b32_of_b64 (x : spec_float) : spec_float :=
  match x with
  | S754_finite s m e => binary_normalize 24 128 (cond_Zopp s (Zpos m)) e s
  | _ => x
  end.

(** [tf.cast(_, tf.int32)] of a float32: truncation toward zero.  For
    not a number, the infinities and the values outside int32 the
    conversion of the CPU kernel returns the smallest int32. *)
Definition int32_of_b32 (x : spec_float) : option Z :=
  match x with
  | S754_zero _ => Some 0%Z
  | S754_finite s m e =>
      let q := (if 0 <=? e then Zpos m * 2 ^ e else Zpos m / 2 ^ (- e))%Z in
      if (q <? 2 ^ 31)%Z then Some (cond_Zopp s q) else Some (- 2 ^ 31)%Z
  | _ => Some (- 2 ^ 31)%Z
  end.

(** The Python float written as the decimal fraction [n / d]:
    the binary64 nearest to it. *)
Definition decimal (n d : Z) : spec_float := b64_div (b64_of_Z n) (b64_of_Z d).

(** The exact rational value of a finite float. *)
Definition to_Q (x : spec_float) : Q :=
  match x with
  | S754_finite s m e =>
      if (0 <=? e)%Z then inject_Z (cond_Zopp s (Zpos m * 2 ^ e))
      else Qmake (cond_Zopp s (Zpos m)) (Z.to_pos (2 ^ (- e)))
  | _ => 0%Q
  end.

Definition len_keep (L : nat) (mask_ratio : spec_float) : option Z :=
  int32_of_b32
    (b32_mul (b32_of_Z (Z.of_nat L))
             (b32_of_b64 (b64_sub (b64_of_Z 1) mask_ratio))).

End Float.

(** ** Static shapes of the tensor operations of [_random_masking]

    TensorFlow checks ranks and dimensions of every operation when the
    graph is built; the functions below are those checks for the
    operations of lines 45 and 46. *)

Module Shape.

Definition shape := list nat.

(** [tf.range(B)] *)
Definition range (B : nat) : shape := [B].

(** [t[:, None]]: a new axis of size one after the first axis. *)
Definition new_axis_1 (s : shape) : result shape :=
  match s with
  | d :: rest => Ok (d :: 1 :: rest)
  | [] => Raise InvalidArgumentError
  end.

(** [tf.reshape(t, (-1, 1))] *)
Definition reshape_rows (s : shape) : shape := [fold_right Nat.mul 1 s; 1].

(** [tf.expand_dims(t, -1)] *)
Definition expand_dims_last (s : shape) : shape := s ++ [1].

Definition shape_eqb (s t : shape) : bool :=
  if list_eq_dec Nat.eq_dec s t then true else false.

(** [tf.concat([s; t], axis=-1)]: the ranks must match, and so must all
    dimensions but the last. *)
Definition concat_last (s t : shape) : result shape :=
  match rev s, rev t with
  | a :: s', b :: t' =>
      if shape_eqb s' t' then Ok (rev s' ++ [a + b])
      else Raise InvalidArgumentError
  | _, _ => Raise InvalidArgumentError
  end.

(** [tf.gather_nd(params, indices, batch_dims=1)]: the leading batch
    dimension is shared, the last axis of [indices] holds index tuples
    into the remaining axes of [params]. *)
Definition gather_nd_batch1 (params indices : shape) : result shape :=
  match params, rev indices with
  | b :: inner, k :: lead =>
      match rev lead with
      | b' :: outer =>
          if Nat.eqb b b' && Nat.leb k (length inner)
          then Ok (b :: outer ++ skipn k inner)
          else Raise InvalidArgumentError
      | [] => Raise InvalidArgumentError
      end
  | _, _ => Raise InvalidArgumentError
  end.

(** Lines 45-46 for [patches] of shape (B, L, D) and [ids_keep] of
    shape (B, n): the shape of [x_masked]. *)
Definition _random_masking (B L D n : nat) : result shape :=
  r <- new_axis_1 (range B) ;;
  let batch_range := reshape_rows r in
  indices <- concat_last batch_range (expand_dims_last [B; n]) ;;
  gather_nd_batch1 [B; L; D] indices.

(** The same gather with the index tensor [expand_dims(ids_keep, -1)]
    alone, which is what [batch_dims=1] expects. *)
Definition gather_kept (B L D n : nat) : result shape :=
  gather_nd_batch1 [B; L; D] (expand_dims_last [B; n]).

End Shape.

(** ** Sorting indices: [tf.argsort]

    [tf.argsort(values, axis=1)] sorts each row ascending and returns the
    indices; equal keys keep their order (the lower index first). *)

Section Argsort.

Variable K : Type.
Variable leb : K -> K -> bool.

Fixpoint insert_key (x : nat * K) (l : list (nat * K)) : list (nat * K) :=
  match l with
  | [] => [x]
  | y :: l' => if leb (snd x) (snd y) then x :: l else y :: insert_key x l'
  end.

Definition sort_pairs (l : list (nat * K)) : list (nat * K) :=
  fold_right insert_key [] l.

Definition argsort (keys : list K) : list nat :=
  map fst (sort_pairs (combine (seq 0 (length keys)) keys)).

(** The order that the sorted pairs obey. *)
Definition key_le (a b : nat * K) : Prop := leb (snd a) (snd b) = true.

End Argsort.

(** Python slice [l[:k]] with a possibly negative bound. *)
Definition slice_to {A : Type} (k : Z) (l : list A) : list A :=
  if (0 <=? k)%Z then firstn (Z.to_nat k) l
  else firstn (length l - Z.to_nat (- k)) l.

Fixpoint mapM {A B : Type} (f : A -> result B) (l : list A) : result (list B) :=
  match l with
  | [] => Ok []
  | a :: l' => b <- f a ;; bs <- mapM f l' ;; Ok (b :: bs)
  end.

Fixpoint mapM2 {A B C : Type} (f : A -> B -> result C) (l : list A) (m : list B)
  : result (list C) :=
  match l, m with
  | a :: l', b :: m' => c <- f a b ;; cs <- mapM2 f l' m' ;; Ok (c :: cs)
  | _, _ => Ok []
  end.

(** [tf.gather(xs, ids)] along the row axis of one sample: an index
    outside the rows is an error. *)
Definition gather {A : Type} (xs : list A) (ids : list nat) : result (list A) :=
  mapM (fun i => match nth_error xs i with
                 | Some x => Ok x
                 | None => Raise InvalidArgumentError
                 end) ids.

(** ** The index tensors of [_random_masking], one row per sample

    Lines 41-44.  [noise] is the row of uniform draws of one sample. *)

Definition ids_shuffle (noise : list Q) : list nat := argsort Qle_bool noise.

Definition ids_restore (noise : list Q) : list nat :=
  argsort Nat.leb (ids_shuffle noise).

Definition ids_keep (len_keep : Z) (noise : list Q) : list nat :=
  slice_to len_keep (ids_shuffle noise).

(** ** Tensors with rational entries *)

Definition vec := list Q.          (* one row: a patch or an embedding *)
Definition sample := list vec.     (* one sample: rows in order *)
Definition batch := list sample.

(** Elementwise binary operations broadcast along an axis when one side
    has size one there, and fail when the sizes differ otherwise. *)
Definition bzip {A B C : Type} (f : A -> B -> result C)
  (xs : list A) (ys : list B) : result (list C) :=
  if length xs =? length ys then mapM2 f xs ys
  else match xs, ys with
       | [x], _ => mapM (f x) ys
       | _, [y] => mapM (fun x => f x y) xs
       | _, _ => Raise InvalidArgumentError
       end.

Definition lift_op (op : Q -> Q -> Q) (a b : Q) : result Q := Ok (op a b).

Definition vec_op (op : Q -> Q -> Q) : vec -> vec -> result vec :=
  bzip (lift_op op).
Definition sample_op (op : Q -> Q -> Q) : sample -> sample -> result sample :=
  bzip (vec_op op).

Definition Qlen {A : Type} (l : list A) : Q := inject_Z (Z.of_nat (length l)).

(** ** Layers *)

(** [layers.Dense(units)]: [y = x . kernel + bias]; [kernel] has one row
    per input entry, each of [units] entries. *)
Record Dense : Type := { kernel : list vec; bias : vec }.

Definition vscale (c : Q) (v : vec) : vec := map (Qmult c) v.

Fixpoint vsum_rows (width : nat) (rows : list vec) : vec :=
  match rows with
  | [] => repeat 0%Q width
  | r :: rows' => map (fun p => (fst p + snd p)%Q) (combine r (vsum_rows width rows'))
  end.

Definition Dense_call (d : Dense) (x : vec) : vec :=
  map (fun p => (fst p + snd p)%Q)
      (combine (vsum_rows (length (bias d))
                  (map (fun p => vscale (fst p) (snd p)) (combine x (kernel d))))
               (bias d)).

(** [SwinBlock]: normalisation, attention and the MLP are the
    framework's; the block adds them to the residual stream. *)
Record SwinBlock : Type := {
  norm1 : sample -> sample;
  attn : sample -> sample -> sample;
  norm2 : sample -> sample;
  mlp : sample -> sample
}.

Definition SwinBlock_call (b : SwinBlock) (x : sample) : result sample :=
  x1 <- sample_op Qplus x (attn b (norm1 b x) (norm1 b x)) ;;
  sample_op Qplus x1 (mlp b (norm2 b x1)).

Fixpoint blocks_call (bs : list SwinBlock) (x : sample) : result sample :=
  match bs with
  | [] => Ok x
  | b :: bs' => x' <- SwinBlock_call b x ;; blocks_call bs' x'
  end.

(** A block keeps the shape of its input: attention returns one row per
    query row, the MLP and the normalisations act row by row, all of the
    block's width. *)
Definition same_shape (x y : sample) : Prop :=
  Forall2 (fun r s : vec => length r = length s) x y.

Definition shape_preserving (b : SwinBlock) : Prop :=
  forall x, same_shape (attn b (norm1 b x) (norm1 b x)) x
            /\ same_shape (mlp b (norm2 b x)) x.

(** ** The classification head

    [_add_classification_head(trainable)] builds a functional model whose
    [layers] list starts with the input layer. *)

Inductive layer : Type :=
| InputLayer
| GlobalAveragePooling1D
| Lambda                     (* layers.Lambda(lambda x: tf.stop_gradient(x)) *)
| DenseSoftmax (d : Dense).  (* layers.Dense(num_classes, activation='softmax') *)

Definition _add_classification_head (head : Dense) (trainable : bool) : list layer :=
  [InputLayer; GlobalAveragePooling1D]
    ++ (if negb trainable then [Lambda] else [])
    ++ [DenseSoftmax head].

Definition isinstance_Lambda (l : layer) : bool :=
  match l with Lambda => true | _ => false end.

(** Values that flow between the layers of the head. *)
Inductive activation : Type :=
| Rows (s : sample)
| Pooled (v : vec).

(** Mean over the row axis. *)
Definition mean_rows (s : sample) : vec :=
  vscale (1 / Qlen s)%Q (vsum_rows (length (hd [] s)) s).

(** The forward value of a layer.  [tf.stop_gradient] is the identity on
    values.  For the last layer the value kept is the row of logits:
    softmax is increasing in every logit, so [np.argmax] of the softmax
    row is [np.argmax] of the logits. *)
Definition layer_call (l : layer) (a : activation) : result activation :=
  match l, a with
  | InputLayer, _ => Ok a
  | GlobalAveragePooling1D, Rows s => Ok (Pooled (mean_rows s))
  | GlobalAveragePooling1D, Pooled _ => Raise InvalidArgumentError
  | Lambda, _ => Ok a
  | DenseSoftmax d, Pooled v => Ok (Pooled (Dense_call d v))
  | DenseSoftmax d, Rows s => Ok (Rows (map (Dense_call d) s))
  end.

Fixpoint layers_call (ls : list layer) (a : activation) : result activation :=
  match ls with
  | [] => Ok a
  | l :: ls' => a' <- layer_call l a ;; layers_call ls' a'
  end.

Definition classifier_call (ls : list layer) (z : sample) : result vec :=
  a <- layers_call ls (Rows z) ;;
  match a with
  | Pooled v => Ok v
  | Rows _ => Raise InvalidArgumentError
  end.

(** [np.argmax] of a row: the first index of the largest entry. *)
Fixpoint argmax_from (best : Q) (best_i i : nat) (v : vec) : nat :=
  match v with
  | [] => best_i
  | q :: v' =>
      if Qle_bool q best then argmax_from best best_i (S i) v'
      else argmax_from q i (S i) v'
  end.

Definition argmax (v : vec) : nat :=
  match v with
  | [] => 0
  | q :: v' => argmax_from q 0 1 v'
  end.

(** ** The model object *)

Record Swin_MAE : Type := {
  input_shape : nat * nat;
  num_classes : nat;
  model_dir : string;
  mask_ratio : spec_float;
  patch_embed : Dense;               (* layers.Dense(64) of _build_mae *)
  pos_embed : list vec;              (* the Embedding rows 0 .. input_shape[0]-1 *)
  encoder_blocks : list SwinBlock;   (* four blocks *)
  encoder_trainable : bool;          (* self.encoder.trainable *)
  decoder_blocks : list SwinBlock;   (* two blocks *)
  reconstruct : Dense;               (* layers.Dense(input_shape[-1]) *)
  classifier : list layer            (* self.classifier.layers *)
}.

Definition len_keep (M : Swin_MAE) (L : nat) : result Z :=
  match Float.len_keep L (mask_ratio M) with
  | Some k => Ok k
  | None => Raise InvalidArgumentError
  end.

(** [_random_masking], lines 39-47, on a batch [patches] of shape
    (B, L, D); [noise] is the (B, L) tensor of draws of line 41.  The
    index tensor of line 46 is checked as TensorFlow checks it
    ([Shape._random_masking]); were it accepted, the gather would return
    the rows at [ids_keep] of every sample. *)
Definition _random_masking (M : Swin_MAE) (patches : batch) (noise : list (list Q))
  : result (batch * list (list nat)) :=
  let B := length patches in
  let L := length (hd [] patches) in
  let D := length (hd [] (hd [] patches)) in
  k <- len_keep M L ;;
  let restore := map ids_restore noise in
  let keep := map (ids_keep k) noise in
  indexed <- Shape._random_masking B L D (length (hd [] keep)) ;;
  x_masked <- mapM2 (@gather vec) patches keep ;;
  Ok (x_masked, restore).

(** The encoder graph of [_build_mae] after the masking stage, on the
    rows [masked_x] of one sample.  Lines 60-61: the positional table,
    cut to the number of rows of [masked_x], is added. *)
Definition encoder_input (M : Swin_MAE) (masked_x : sample) : result sample :=
  sample_op Qplus masked_x (firstn (length masked_x) (pos_embed M)).

(** Lines 60-67: the positional rows, then the stacked blocks. *)
Definition encoder_output (M : Swin_MAE) (masked_x : sample) : result sample :=
  y <- encoder_input M masked_x ;;
  blocks_call (encoder_blocks M) y.

(** The encoder model, lines 50-67: the patch embedding of every time
    step, the masking stage, and the rest of the graph on what the
    masking stage returns. *)
Definition encoder (M : Swin_MAE) (x : batch) (noise : list (list Q)) : result batch :=
  let e := map (map (Dense_call (patch_embed M))) x in
  r <- _random_masking M e noise ;;
  mapM (encoder_output M) (fst r).

(** The decoder graph of [_build_mae]. *)
Definition decoder_input (M : Swin_MAE) (z : sample) : result sample :=
  sample_op Qplus z (firstn (length z) (pos_embed M)).

Definition decoder (M : Swin_MAE) (z : sample) : result sample :=
  x <- decoder_input M z ;;
  x <- blocks_call (decoder_blocks M) x ;;
  Ok (map (Dense_call (reconstruct M)) x).



(** The model of [finetune] and [evaluate], lines 121 and 140: the
    classifier applied to the encoder output. *)
Definition model_call (M : Swin_MAE) (x : batch) (noise : list (list Q))
  : result (list vec) :=
  z <- encoder M x noise ;;
  mapM (classifier_call (classifier M)) z.

(** [__init__], lines 27-35.  [_build_mae] builds the encoder graph on
    a symbolic batch of the input shape and traces [_random_masking] on
    the embedded batch (line 57); [B] and [n] stand for the batch size
    and the keep length, which are not known while the graph is built.
    An exception raised while the graph is built leaves no object;
    [built] is the object that the constructor would return. *)
Definition __init__ (built : Swin_MAE) (B n : nat) : result Swin_MAE :=
  traced <- Shape._random_masking B (fst (input_shape built)) 64 n ;;
  Ok built.

(** [tf.keras.utils.to_categorical(y, num_classes)]: one row per label,
    with a one at the label's index.  The rows are written by numpy
    indexing: a negative label counts from the end, a label outside the
    row raises IndexError.  A [num_classes] of zero is replaced by the
    largest label plus one. *)
Definition one_hot (C i : nat) : vec :=
  map (fun j => if j =? i then 1%Q else 0%Q) (seq 0 C).

Definition to_categorical (y : list Z) (num_classes : nat) : result (list vec) :=
  match y, num_classes with
  | [], 0 => Raise ValueError
  | _, _ =>
      let C := if num_classes =? 0 then (fold_right Z.max (hd 0%Z y) y + 1)%Z
               else Z.of_nat num_classes in
      if (C <? 0)%Z then Raise ValueError
      else mapM (fun l =>
                   let i := if (l <? 0)%Z then (l + C)%Z else l in
                   if (0 <=? i)%Z && (i <? C)%Z
                   then Ok (one_hot (Z.to_nat C) (Z.to_nat i))
                   else Raise IndexError) y
  end.

(** A functional Keras [Model]: its forward pass (with the draws of the
    masking stage of that pass), and whether [compile] has been called
    on it.  [Model(inputs, outputs)] returns a model that is not
    compiled, and [model.evaluate] refuses such a model. *)
Record Model : Type := {
  compiled : bool;
  forward : batch -> list (list Q) -> result (list vec)
}.

Definition Model_new (forward : batch -> list (list Q) -> result (list vec)) : Model :=
  {| compiled := false; forward := forward |}.

Definition Model_predict (m : Model) (x : batch) (noise : list (list Q))
  : result (list vec) :=
  forward m x noise.

Section Evaluate.

(** The external metrics collaborator, and the loss and the accuracy
    that a compiled model computes from targets and scores. *)
Variable Metrics : Type.
Variable calculate_metrics : list Z -> list nat -> Metrics.
Variable loss_and_accuracy : list vec -> list vec -> Q * Q.

Definition Model_evaluate (m : Model) (x : batch) (y : list vec)
  (noise : list (list Q)) : result (Q * Q) :=
  if compiled m then
    p <- forward m x noise ;; Ok (loss_and_accuracy y p)
  else Raise RuntimeError.

(** [evaluate], lines 139-149; [noise1] and [noise2] are the draws of
    the two forward passes.  The summary and the visualizations follow
    the metrics. *)
Definition evaluate (M : Swin_MAE) (x_test : batch) (y_test : list Z)
  (noise1 noise2 : list (list Q)) : result (Q * Q * Metrics) :=
  y_test_enc <- to_categorical y_test (num_classes M) ;;
  let model := Model_new (model_call M) in
  results <- Model_evaluate model x_test y_test_enc noise1 ;;
  probs <- Model_predict model x_test noise2 ;;
  let y_pred := map argmax probs in
  Ok (results, calculate_metrics y_test y_pred).

End Evaluate.

(** ** The reconstruction loss of [pretrain]

    Lines 94-96, on float32 tensors.  [tf.not_equal(y_true, 0)] is false
    for both zeros and true for everything else, not-a-number included;
    the cast writes 1.0 and 0.0.  [tf.reduce_mean] divides the sum of
    all entries by their count; the entries are summed in row-major
    order here (the framework's order of summation is its own). *)

Definition fvec := list spec_float.
Definition fsample := list fvec.
Definition fbatch := list fsample.

Definition fbatch_op (op : spec_float -> spec_float -> spec_float)
  : fbatch -> fbatch -> result fbatch :=
  bzip (bzip (bzip (fun a b => Ok (op a b)))).

Definition f32_zero : spec_float := S754_zero false.
Definition f32_one : spec_float := Float.b32_of_Z 1.

Definition not_equal_0 (t : spec_float) : spec_float :=
  match t with
  | S754_zero _ => f32_zero
  | _ => f32_one
  end.

Definition square (d : spec_float) : spec_float := Float.b32_mul d d.

Definition fflat (t : fbatch) : list spec_float := concat (concat t).

Definition reduce_mean (t : fbatch) : spec_float :=
  Float.b32_div (fold_left Float.b32_add (fflat t) f32_zero)
                (Float.b32_of_Z (Z.of_nat (length (fflat t)))).

(** [tf.square(y_true - y_pred) * mask] *)
Definition mae_terms (y_true y_pred : fbatch) : result fbatch :=
  let mask := map (map (map not_equal_0)) y_true in
  d <- fbatch_op Float.b32_sub y_true y_pred ;;
  fbatch_op Float.b32_mul (map (map (map square)) d) mask.

Definition mae_loss (y_true y_pred : fbatch) : result spec_float :=
  w <- mae_terms y_true y_pred ;;
  Ok (reduce_mean w).





Definition zip_with {A B C : Type} (f : A -> B -> C) (l : list A) (m : list B) : list C :=
  map (fun p => f (fst p) (snd p)) (combine l m).

(** ** Training modes and checkpoint files *)

(** [os.path.join(dir, name)] *)
Definition ends_with_slash (s : string) : bool :=
  match String.get (String.length s - 1) s with
  | Some c => Ascii.eqb c "/"%char
  | None => false
  end.

Definition path_join (dir name : string) : string :=
  match String.get 0 name with
  | Some "/"%char => name
  | _ => if (String.length dir =? 0) || ends_with_slash dir
         then (dir ++ name)%string
         else (dir ++ "/" ++ name)%string
  end.

Definition set_classifier (M : Swin_MAE) (c : list layer) : Swin_MAE :=
  {| input_shape := input_shape M; num_classes := num_classes M;
     model_dir := model_dir M; mask_ratio := mask_ratio M;
     patch_embed := patch_embed M; pos_embed := pos_embed M;
     encoder_blocks := encoder_blocks M;
     encoder_trainable := encoder_trainable M;
     decoder_blocks := decoder_blocks M; reconstruct := reconstruct M;
     classifier := c |}.

Definition set_encoder_trainable (M : Swin_MAE) (t : bool) : Swin_MAE :=
  {| input_shape := input_shape M; num_classes := num_classes M;
     model_dir := model_dir M; mask_ratio := mask_ratio M;
     patch_embed := patch_embed M; pos_embed := pos_embed M;
     encoder_blocks := encoder_blocks M;
     encoder_trainable := t;
     decoder_blocks := decoder_blocks M; reconstruct := reconstruct M;
     classifier := classifier M |}.

(** What a training call sets up before it enters [model.fit]: the
    object as the call has changed it (line 90, line 116) and the file
    name it hands to [ModelCheckpoint] (lines 107, 131).  The fit
    itself is the framework's; the calls with their effects and the
    outcome of the fit follow in [Run]. *)
Record trained : Type := { model_after : Swin_MAE; checkpoint : string }.

(** [pretrain] up to the fit: line 107. *)
Definition pretrain (M : Swin_MAE) : result trained :=
  Ok {| model_after := M;
        checkpoint := path_join (model_dir M) "pretrained_encoder.h5" |}.

(** [finetune] up to the fit: lines 116 and 131. *)
Definition finetune (M : Swin_MAE) : result trained :=
  match nth_error (classifier M) 1 with
  | None => Raise IndexError
  | Some l =>
      let M' := set_encoder_trainable M (negb (isinstance_Lambda l)) in
      Ok {| model_after := M';
            checkpoint :=
              path_join (model_dir M')
                ((if negb (encoder_trainable M') then "linear" else "finetune")
                   ++ "_model.h5")%string |}
  end.

(** [train(..., mode)] up to the fit: lines 87-91; [head] is the freshly
    initialised Dense layer of the new classification head. *)
Definition train (M : Swin_MAE) (mode : string) (head : Dense) : result trained :=
  if String.eqb mode "pretrain" then pretrain M
  else finetune (set_classifier M
                   (_add_classification_head head (String.eqb mode "fine-tune"))).

(** ** The training calls with their effects

    The effects of a call in their order, and its result.  An exception
    ends the call where it is raised; what was assigned before stays
    assigned. *)
Inductive effect : Type :=
| SetClassifier (ls : list layer)        (* line 90: self.classifier = ... *)
| SetEncoderTrainable (b : bool)         (* line 116: self.encoder.trainable = ... *)
| ModelCheckpoint (filepath : string)    (* lines 106, 130: the callback is created *)
| Fit.                                   (* model.fit is entered *)

Module Run.

Section Fit.

(** The outcome of [model.fit] for the reconstruction model and for
    the classification model, the framework's: the history, or the
    exception that the fit raises. *)
Variable History : Type.
Variable fit_mae : Swin_MAE -> result History.
Variable fit_model : Swin_MAE -> list vec -> list vec -> result History.

(** [pretrain], lines 93-113.  The callback list is an argument of
    [fit]: it is built before [fit] is entered. *)
Definition pretrain (M : Swin_MAE) : list effect * result History :=
  ([ModelCheckpoint (path_join (model_dir M) "pretrained_encoder.h5"); Fit],
   fit_mae M).

(** [finetune], lines 115-136. *)
Definition finetune (M : Swin_MAE) (y_train y_val : list Z)
  : list effect * result History :=
  match nth_error (classifier M) 1 with
  | None => ([], Raise IndexError)
  | Some l =>
      let M' := set_encoder_trainable M (negb (isinstance_Lambda l)) in
      let assigned := [SetEncoderTrainable (encoder_trainable M')] in
      match to_categorical y_train (num_classes M') with
      | Raise e => (assigned, Raise e)
      | Ok y_train_enc =>
          match to_categorical y_val (num_classes M') with
          | Raise e => (assigned, Raise e)
          | Ok y_val_enc =>
              let filepath :=
                path_join (model_dir M')
                  ((if negb (encoder_trainable M') then "linear" else "finetune")
                     ++ "_model.h5")%string in
              (assigned ++ [ModelCheckpoint filepath; Fit],
               fit_model M' y_train_enc y_val_enc)
          end
      end
  end.

(** [train], lines 86-91; [head] is the freshly initialised Dense
    layer of the new classification head. *)
Definition train (M : Swin_MAE) (mode : string) (head : Dense)
  (y_train y_val : list Z) : list effect * result History :=
  if String.eqb mode "pretrain" then pretrain M
  else
    let c := _add_classification_head head (String.eqb mode "fine-tune") in
    let r := finetune (set_classifier M c) y_train y_val in
    (SetClassifier c :: fst r, snd r).

End Fit.

End Run.

(** ** One training step of the classification model

    The gradient tape and the optimizer are the framework's.  What the
    frame property needs of them:
    - a value on the tape carries its derivative with respect to the
      watched variable, or [None] when no differentiable path leads from
      the variable to it ([tape.gradient] then returns [None]);
    - [tf.stop_gradient] is the identity on the value and cuts the path;
    - [apply_gradients] drops the variables whose gradient is [None] and
      hands the others to the optimizer's update rule. *)

Module Tape.

Record traced : Type := { val : Q; grad : option Q }.

Definition const (q : Q) : traced := {| val := q; grad := None |}.
Definition watched (q : Q) : traced := {| val := q; grad := Some 1%Q |}.
Definition stop_gradient (t : traced) : traced := const (val t).

(** No path from the watched variable / some path from it. *)
Definition detached (t : traced) : Prop := grad t = None.
Definition connected (t : traced) : Prop := exists g, grad t = Some g.

Definition g0 (g : option Q) : Q := match g with Some q => q | None => 0%Q end.

Definition join (ga gb : option Q) (q : Q) : option Q :=
  match ga, gb with
  | None, None => None
  | _, _ => Some q
  end.

Definition tadd (a b : traced) : traced :=
  {| val := (val a + val b)%Q;
     grad := join (grad a) (grad b) (g0 (grad a) + g0 (grad b))%Q |}.

Definition tmul (a b : traced) : traced :=
  {| val := (val a * val b)%Q;
     grad := join (grad a) (grad b)
               (g0 (grad a) * val b + val a * g0 (grad b))%Q |}.

Definition tunary (f f' : Q -> Q) (a : traced) : traced :=
  {| val := f (val a);
     grad := match grad a with
             | Some g => Some (f' (val a) * g)%Q
             | None => None
             end |}.

Definition tneg : traced -> traced := tunary Qopp (fun _ => (- (1))%Q).
Definition tinv : traced -> traced := tunary Qinv (fun x => (- / (x * x))%Q).
Definition tdiv (a b : traced) : traced := tmul a (tinv b).
Definition tsum (l : list traced) : traced := fold_right tadd (const 0) l.

Definition tvec := list traced.

Fixpoint tsum_rows (width : nat) (rows : list tvec) : tvec :=
  match rows with
  | [] => repeat (const 0) width
  | r :: rows' => map (fun p => tadd (fst p) (snd p)) (combine r (tsum_rows width rows'))
  end.

(** GlobalAveragePooling1D *)
Definition tmean_rows (s : list tvec) : tvec :=
  map (tmul (const (1 / Qlen s)))
      (tsum_rows (length (hd [] s)) s).

(** The variable the tape watches. *)
Inductive variable : Type :=
| EncoderVar (i : nat)        (* the i-th scalar weight of the encoder *)
| HeadKernel (i j : nat)      (* entry (i, j) of the head's Dense kernel *)
| HeadBias (j : nat).         (* entry j of the head's Dense bias *)

Definition mark (hit : bool) (q : Q) : traced :=
  if hit then watched q else const q.

Definition number {A : Type} (l : list A) : list (nat * A) :=
  combine (seq 0 (length l)) l.

Definition traced_bias (w : variable) (d : Dense) : tvec :=
  map (fun p => mark (match w with HeadBias j => fst p =? j | _ => false end) (snd p))
      (number (bias d)).

Definition traced_kernel (w : variable) (d : Dense) : list tvec :=
  map (fun r =>
         map (fun p => mark (match w with
                             | HeadKernel i j => (fst r =? i) && (fst p =? j)
                             | _ => false
                             end) (snd p))
             (number (snd r)))
      (number (kernel d)).

Definition tDense_call (w : variable) (d : Dense) (x : tvec) : tvec :=
  map (fun p => tadd (fst p) (snd p))
      (combine (tsum_rows (length (bias d))
                  (map (fun p => map (tmul (fst p)) (snd p))
                       (combine x (traced_kernel w d))))
               (traced_bias w d)).

Section Loss.

(** The exponential and the logarithm of softmax and cross-entropy. *)
Variables exp ln : Q -> Q.

Definition texp : traced -> traced := tunary exp exp.
Definition tln : traced -> traced := tunary ln Qinv.

Definition softmax (z : tvec) : tvec :=
  let e := map texp z in map (fun x => tdiv x (tsum e)) e.

(** [categorical_crossentropy(y, p) = - sum_j y_j ln p_j] *)
Definition categorical_crossentropy (y : vec) (p : tvec) : traced :=
  tneg (tsum (map (fun q => tmul (const (fst q)) (tln (snd q))) (combine y p))).

Inductive tactivation : Type :=
| TRows (s : list tvec)
| TPooled (v : tvec).

Definition tlayer_call (w : variable) (l : layer) (a : tactivation)
  : result tactivation :=
  match l, a with
  | InputLayer, _ => Ok a
  | GlobalAveragePooling1D, TRows s => Ok (TPooled (tmean_rows s))
  | GlobalAveragePooling1D, TPooled _ => Raise InvalidArgumentError
  | Lambda, TRows s => Ok (TRows (map (map stop_gradient) s))
  | Lambda, TPooled v => Ok (TPooled (map stop_gradient v))
  | DenseSoftmax d, TPooled v => Ok (TPooled (softmax (tDense_call w d v)))
  | DenseSoftmax d, TRows s =>
      Ok (TRows (map (fun r => softmax (tDense_call w d r)) s))
  end.

Fixpoint tlayers_call (w : variable) (ls : list layer) (a : tactivation)
  : result tactivation :=
  match ls with
  | [] => Ok a
  | l :: ls' => a' <- tlayer_call w l a ;; tlayers_call w ls' a'
  end.

(** The loss of one sample: [z] is the encoder output on the tape,
    [y] the one-hot target. *)
Definition sample_loss (w : variable) (ls : list layer) (z : list tvec) (y : vec)
  : result traced :=
  a <- tlayers_call w ls (TRows z) ;;
  match a with
  | TPooled p => Ok (categorical_crossentropy y p)
  | TRows _ => Raise InvalidArgumentError
  end.

(** The loss of a batch: the mean of the sample losses. *)
Definition batch_loss (w : variable) (ls : list layer)
  (zs : list (list tvec)) (ys : list vec) : result traced :=
  ls' <- mapM2 (sample_loss w ls) zs ys ;;
  Ok (tmul (const (1 / Qlen ls')) (tsum ls')).

(** [tape.gradient(loss, variable)] *)
Definition gradient (w : variable) (ls : list layer)
  (zs : list (list tvec)) (ys : list vec) : result (option Q) :=
  l <- batch_loss w ls zs ys ;; Ok (grad l).

(** The optimizer: [update v g] is the new value of a variable [v]
    with gradient [g] (for AdamW: the moment step and the weight
    decay). *)
Variable update : Q -> Q -> Q.

Definition apply_gradient (g : option Q) (v : Q) : Q :=
  match g with
  | Some g => update v g
  | None => v
  end.

(** One step on the encoder weights [theta]: [encoder_out i] is the
    encoder output on a tape that watches weight [i].  A model whose
    encoder is not trainable does not list the encoder weights among
    its trainable variables. *)
Definition train_step_encoder (trainable : bool) (ls : list layer)
  (encoder_out : nat -> list (list tvec)) (ys : list vec) (theta : list Q)
  : result (list Q) :=
  if trainable then
    mapM (fun p =>
            g <- gradient (EncoderVar (fst p)) ls (encoder_out (fst p)) ys ;;
            Ok (apply_gradient g (snd p)))
         (number theta)
  else Ok theta.

(** One step on the bias of the head. *)
Definition train_step_head_bias (ls : list layer) (d : Dense)
  (zs : list sample) (ys : list vec) : result vec :=
  mapM (fun p =>
          g <- gradient (HeadBias (fst p)) ls
                 (map (map (map const)) zs) ys ;;
          Ok (apply_gradient g (snd p)))
       (number (bias d)).

End Loss.

End Tape.

(** ** The ViT pipeline *)

Module ViT.

(** Cut a list into consecutive chunks of [w] entries ([w > 0]); a
    shorter remainder is a last chunk. *)
Fixpoint chunks_fuel {A : Type} (fuel w : nat) (l : list A) : list (list A) :=
  match fuel, l with
  | 0, _ => []
  | _, [] => []
  | S fuel', _ => firstn w l :: chunks_fuel fuel' w (skipn w l)
  end.

Definition chunks {A : Type} (w : nat) (l : list A) : list (list A) :=
  chunks_fuel (length l) w l.

(** [tf.reshape(x, [batch_size, -1, width])] of [x] of shape
    (batch_size, L, F): the entries in row-major order, regrouped; the
    free dimension must come out whole.  When a size is zero the
    kernel leaves the zero sizes out of the division that finds the
    free dimension: an empty batch gives an empty tensor, and a width
    of zero is accepted when [x] has no entries. *)
Definition reshape (L F batch_size width : nat) (x : batch) : result batch :=
  let flat := concat (concat x) in
  let total := length flat in
  if batch_size =? 0 then Ok []
  else if width =? 0 then
    if (L =? 0) || (F =? 0)
    then Ok (repeat (repeat [] (Nat.max L 1 * Nat.max F 1)) batch_size)
    else Raise InvalidArgumentError
  else if negb (total mod (batch_size * width) =? 0) then Raise InvalidArgumentError
  else
    let n := total / (batch_size * width) in
    if n =? 0 then Ok (repeat [] batch_size)
    else Ok (chunks n (chunks width flat)).

(** [Patches(patch_size).call(x)]; [features] is the static [x.shape[-1]]. *)
Definition Patches_call (patch_size features : nat) (x : batch) : result batch :=
  let batch_size := length x in
  reshape (length (hd [] x)) features batch_size (patch_size * features) x.

Record PatchEncoder : Type := {
  num_patches : nat;
  projection : Dense;                 (* layers.Dense(projection_dim) *)
  position_embedding : list vec       (* the Embedding table, num_patches rows *)
}.

(** [positions = tf.range(0, num_patches)]; the lookup returns the rows
    of the table in order. *)
Definition embedding_lookup (table : list vec) (positions : list nat)
  : result sample :=
  gather table positions.

Definition PatchEncoder_call (pe : PatchEncoder) (patch : batch) : result batch :=
  pos <- embedding_lookup (position_embedding pe) (seq 0 (num_patches pe)) ;;
  mapM (fun s => sample_op Qplus (map (Dense_call (projection pe)) s) pos) patch.

(** [_build_model]: the patch count handed to [PatchEncoder]. *)
Definition build_num_patches (input_shape : nat * nat) : nat :=
  (fst input_shape / 4) * (snd input_shape / 1).

(** The patch and embedding stage of [_build_model] on a batch. *)
Definition patch_stage (input_shape : nat * nat) (pe : PatchEncoder) (x : batch)
  : result batch :=
  patches <- Patches_call 4 (snd input_shape) x ;;
  PatchEncoder_call pe patches.

(** A batch of the configured input shape. *)
Definition has_shape (input_shape : nat * nat) (x : batch) : Prop :=
  Forall (fun s : sample =>
            length s = fst input_shape
            /\ Forall (fun r : vec => length r = snd input_shape) s) x.

(** *** Label encoder (scikit-learn's [LabelEncoder]) *)

Record LabelEncoder : Type := { classes_ : option (list Z) }.

Definition LabelEncoder_new : LabelEncoder := {| classes_ := None |}.

Fixpoint insert_unique (y : Z) (cs : list Z) : list Z :=
  match cs with
  | [] => [y]
  | c :: cs' =>
      if (y <? c)%Z then y :: cs
      else if (y =? c)%Z then cs
      else c :: insert_unique y cs'
  end.

Fixpoint index_of (y : Z) (cs : list Z) : option nat :=
  match cs with
  | [] => None
  | c :: cs' => if (y =? c)%Z then Some 0
                else option_map S (index_of y cs')
  end.

Definition transform (enc : LabelEncoder) (y : list Z) : result (list nat) :=
  match classes_ enc with
  | None => Raise NotFittedError
  | Some cs =>
      mapM (fun l => match index_of l cs with
                     | Some i => Ok i
                     | None => Raise ValueError
                     end) y
  end.

Definition fit (y : list Z) : LabelEncoder :=
  {| classes_ := Some (fold_right insert_unique [] y) |}.

Definition fit_transform (y : list Z) : LabelEncoder * result (list nat) :=
  (fit y, transform (fit y) y).

(** *** The model object *)

(** A built or loaded Keras network: its shapes and its forward pass. *)
Record KerasModel : Type := {
  model_input_shape : nat * nat;      (* model.input_shape[1:] *)
  model_output_classes : nat;         (* model.output_shape[-1] *)
  model_predict : batch -> result (list vec)
}.

Record ViT : Type := {
  input_shape : nat * nat;
  num_classes : nat;
  model_dir : string;
  model : KerasModel;
  encoder : LabelEncoder
}.

(** [ViT(input_shape, num_classes)]; [built] is the network that
    [_build_model] returns.  An [Embedding] with no rows is refused. *)
Definition init (input_shape : nat * nat) (num_classes : nat) (built : KerasModel)
  : result ViT :=
  if build_num_patches input_shape =? 0 then Raise ValueError
  else Ok {| input_shape := input_shape; num_classes := num_classes;
             model_dir := "saved_models/vit"; model := built;
             encoder := LabelEncoder_new |}.

(** [ViT.load(model_path)]; [saved] is the network read from the file. *)
Definition load (saved built : KerasModel) : result ViT :=
  vit <- init (model_input_shape saved) (model_output_classes saved) built ;;
  Ok {| input_shape := input_shape vit; num_classes := num_classes vit;
        model_dir := model_dir vit; model := saved; encoder := encoder vit |}.

(** [train]: fits the label encoder, then the network ([fitted] is the
    network after [model.fit]). *)
Definition train (vit : ViT) (y_train y_val : list Z) (fitted : KerasModel)
  : result ViT :=
  let enc := fst (fit_transform y_train) in
  _ <- snd (fit_transform y_train) ;;
  _ <- transform enc y_val ;;
  Ok {| input_shape := input_shape vit; num_classes := num_classes vit;
        model_dir := model_dir vit; model := fitted; encoder := enc |}.

(** The steps of [evaluate] that the outside can observe. *)
Inductive event : Type :=
| Predict
| CalculateMetrics
| PrintMetricsSummary
| SaveVisualizations.

Section Evaluate.

(** The external metrics collaborator. *)
Variable Metrics : Type.
Variable calculate_metrics : list nat -> list nat -> Metrics.

Definition evaluate (vit : ViT) (x_test : batch) (y_test : list Z)
  : list event * result Metrics :=
  match transform (encoder vit) y_test with
  | Raise e => ([], Raise e)
  | Ok y_test_enc =>
      match model_predict (model vit) x_test with
      | Raise e => ([Predict], Raise e)
      | Ok probs =>
          let y_pred := map argmax probs in
          ([Predict; CalculateMetrics; PrintMetricsSummary; SaveVisualizations],
           Ok (calculate_metrics y_test_enc y_pred))
      end
  end.

End Evaluate.

End ViT.

(** ** Well-formed models

    The shapes that [_build_mae] gives the layers: the patch embedding
    and the positional table have the width [D] of the model (64), the
    table has one row per time step, and the blocks keep shapes. *)

Definition rows_width (D : nat) (s : sample) : Prop :=
  Forall (fun r : vec => length r = D) s.

Definition Dense_units (d : Dense) (units : nat) : Prop :=
  length (bias d) = units /\ rows_width units (kernel d).

Record well_formed (M : Swin_MAE) (D : nat) : Prop := {
  wf_patch_embed : Dense_units (patch_embed M) D;
  wf_pos_rows : length (pos_embed M) = fst (input_shape M);
  wf_pos_width : rows_width D (pos_embed M);
  wf_encoder : Forall shape_preserving (encoder_blocks M);
  wf_decoder : Forall shape_preserving (decoder_blocks M)
}.


(** ** Encoder outputs on the tape

    Column [c] of a row carries a gradient; the encoder output of a
    sample reaches the head: its rows have the width of the head's
    kernel and some column of some row depends on the watched weight. *)
Definition connected_at (c : nat) (r : Tape.tvec) : Prop :=
  exists t, nth_error r c = Some t /\ Tape.connected t.

Definition reaches (d : Dense) (z : list Tape.tvec) : Prop :=
  Forall (fun r => length r = length (kernel d)) z
  /\ exists c, Exists (connected_at c) z.

(** A patch encoder as [_build_model] creates it for an input shape:
    [num_patches] from the shape, a table of that many rows, and the
    projection and the table of the model width [D]. *)
Definition patch_encoder_built (pe : ViT.PatchEncoder) (input_shape : nat * nat)
  (D : nat) : Prop :=
  ViT.num_patches pe = ViT.build_num_patches input_shape
  /\ length (ViT.position_embedding pe) = ViT.num_patches pe
  /\ rows_width D (ViT.position_embedding pe)
  /\ Dense_units (ViT.projection pe) D.

(** ** A concrete model of the default configuration

    The attributes of a [Swin_MAE] object with [input_shape = (23, 4)],
    [num_classes = 7] and [mask_ratio = 0.75], with weights chosen so
    that every value can be followed by hand:
    - the patch embedding copies the first feature into coordinate 0;
    - row [j] of the positional table is [j] in coordinate 1;
    - the output projections of attention and of the MLP are zero, so a
      block returns its input;
    - the head scores class 0 with coordinate 0 of the pooled vector and
      class 1 with its opposite. *)

Module Demo.

Definition unit_row (width at_ : nat) (q : Q) : vec :=
  map (fun i => if i =? at_ then q else 0%Q) (seq 0 width).

Definition zeros (width : nat) : vec := repeat 0%Q width.

Definition nat_Q (n : nat) : Q := inject_Z (Z.of_nat n).

Definition zero_block : SwinBlock :=
  {| norm1 := fun x => x;
     attn := fun q _ => map (map (fun _ => 0%Q)) q;
     norm2 := fun x => x;
     mlp := fun x => map (map (fun _ => 0%Q)) x |}.

Definition head : Dense :=
  {| kernel := [1; -1; 0; 0; 0; 0; 0]%Q :: repeat (zeros 7) 63;
     bias := zeros 7 |}.

Definition model : Swin_MAE :=
  {| input_shape := (23, 4);
     num_classes := 7;
     model_dir := "saved_models/swin_mae";
     mask_ratio := Float.decimal 3 4;
     patch_embed := {| kernel := unit_row 64 0 1 :: repeat (zeros 64) 3;
                       bias := zeros 64 |};
     pos_embed := map (fun j => unit_row 64 1 (nat_Q j)) (seq 0 23);
     encoder_blocks := repeat zero_block 4;
     encoder_trainable := true;
     decoder_blocks := repeat zero_block 2;
     reconstruct := {| kernel := repeat (zeros 4) 64; bias := zeros 4 |};
     classifier := _add_classification_head head true |}.

(** One sample: the first five time steps carry [1] in the first
    feature, the others [-1]. *)
Definition x : sample :=
  map (fun t => [if t <? 5 then 1 else (- (1)); 0; 0; 0]%Q) (seq 0 23).

(** Two draws of the noise row: increasing and decreasing. *)
Definition noise_up : list Q := map (fun t => (nat_Q t / 23)%Q) (seq 0 23).
Definition noise_down : list Q := map (fun t => (nat_Q (22 - t) / 23)%Q) (seq 0 23).

(** Float32 tensors for the loss: small integers, and [2 ^ 64], whose
    square is beyond the largest float32. *)
Definition f32 (n : Z) : spec_float := Float.b32_of_Z n.
Definition y_true : fbatch := [[[f32 0; f32 2]; [f32 3; f32 0]]].
Definition y_pred : fbatch := [[[f32 5; f32 1]; [f32 1; f32 7]]].

(** A ViT network of the default shapes whose forward pass scores
    every class zero. *)
Definition network : ViT.KerasModel :=
  {| ViT.model_input_shape := (23, 4);
     ViT.model_output_classes := 7;
     ViT.model_predict := fun x => Ok (map (fun _ => zeros 7) x) |}.

(** A patch encoder for [num_patches] patches of sixteen entries. *)
Definition patch_encoder (num_patches : nat) : ViT.PatchEncoder :=
  {| ViT.num_patches := num_patches;
     ViT.projection := {| kernel := repeat (zeros 64) 16; bias := zeros 64 |};
     ViT.position_embedding := repeat (zeros 64) num_patches |}.

(** A batch of one sample of shape (L, F), all entries one. *)
Definition ones (L F : nat) : batch := [repeat (repeat 1%Q F) L].

End Demo.

(** * Facts about the framework operations *)

(** ** Results *)

Lemma mapM_Forall2 {A B : Type} (f : A -> result B) (l : list A) (m : list B) :
  mapM f l = Ok m <-> Forall2 (fun a b => f a = Ok b) l m.
Proof.
  revert m; induction l as [|a l IH]; intros m; simpl.
  - split; intros H.
    + injection H as <-. constructor.
    + inversion H. reflexivity.
  - destruct (f a) as [b|e] eqn:Hf; simpl.
    + destruct (mapM f l) as [bs|e] eqn:Hm; simpl.
      * split; intros H.
        -- injection H as <-. constructor; [assumption | now apply IH].
        -- inversion H as [|? b' ? m' Hb Hr]; subst.
           rewrite Hf in Hb. injection Hb as <-.
           apply IH in Hr. now injection Hr as <-.
      * split; intros H; [discriminate|].
        inversion H as [|? b' ? m' Hb Hr]; subst.
        apply IH in Hr. discriminate.
    + split; intros H; [discriminate|].
      inversion H as [|? b' ? m' Hb Hr]; subst. congruence.
Qed.

Lemma mapM_ext_in {A B : Type} (f g : A -> result B) (l : list A) :
  (forall a, In a l -> f a = g a) -> mapM f l = mapM g l.
Proof.
  induction l as [|a l IH]; intros H; simpl; [reflexivity|].
  rewrite (H a (or_introl eq_refl)), IH; [reflexivity|].
  intros b Hb. apply H. now right.
Qed.

Lemma Forall2_nth_error_intro {A B : Type} (R : A -> B -> Prop) (l : list A) (m : list B) :
  length l = length m ->
  (forall i a b, nth_error l i = Some a -> nth_error m i = Some b -> R a b) ->
  Forall2 R l m.
Proof.
  revert m; induction l as [|a l IH]; intros [|b m] Hlen H; simpl in Hlen;
    try discriminate; constructor.
  - apply (H 0); reflexivity.
  - apply IH; [lia|]. intros i a' b' Ha Hb. apply (H (S i)); assumption.
Qed.

Lemma Forall2_nth_error_elim {A B : Type} (R : A -> B -> Prop) (l : list A) (m : list B) :
  Forall2 R l m ->
  forall i a, nth_error l i = Some a -> exists b, nth_error m i = Some b /\ R a b.
Proof.
  induction 1 as [|a b l m Hab _ IH]; intros [|i] a' Hi; simpl in *; try discriminate.
  - injection Hi as <-. eauto.
  - eauto.
Qed.

(** ** Gather *)

Lemma gather_Forall2 {A : Type} (xs : list A) (ids : list nat) (ys : list A) :
  gather xs ids = Ok ys <-> Forall2 (fun i y => nth_error xs i = Some y) ids ys.
Proof.
  unfold gather. rewrite mapM_Forall2.
  split; intros H; induction H as [|i y ids' ys' Hiy _ IH]; constructor; auto.
  - destruct (nth_error xs i); congruence.
  - now rewrite Hiy.
Qed.

Lemma gather_total {A : Type} (xs : list A) (ids : list nat) :
  Forall (fun i => i < length xs) ids -> exists ys, gather xs ids = Ok ys.
Proof.
  induction 1 as [|i ids Hi _ [ys IH]].
  - exists []. reflexivity.
  - destruct (nth_error xs i) as [x|] eqn:Hx.
    + exists (x :: ys). apply gather_Forall2. constructor; [assumption|].
      now apply gather_Forall2.
    + apply nth_error_None in Hx. lia.
Qed.

(** ** Argsort *)

Lemma map_fst_combine {A B : Type} (l : list A) (m : list B) :
  length l = length m -> map fst (combine l m) = l.
Proof.
  revert m; induction l as [|a l IH]; intros [|b m] H; simpl in *;
    try discriminate; [reflexivity|].
  f_equal. apply IH. lia.
Qed.

Lemma map_snd_combine {A B : Type} (l : list A) (m : list B) :
  length l = length m -> map snd (combine l m) = m.
Proof.
  revert m; induction l as [|a l IH]; intros [|b m] H; simpl in *;
    try discriminate; [reflexivity|].
  f_equal. apply IH. lia.
Qed.

Lemma combine_fst_snd {A B : Type} (s : list (A * B)) :
  combine (map fst s) (map snd s) = s.
Proof.
  induction s as [|[a b] s IH]; simpl; [reflexivity|]. now rewrite IH.
Qed.

Lemma in_combine_seq {A : Type} (l : list A) (start i : nat) (a : A) :
  In (i, a) (combine (seq start (length l)) l)
  <-> start <= i /\ nth_error l (i - start) = Some a.
Proof.
  revert start; induction l as [|b l IH]; intros start; simpl.
  - split; [tauto|]. intros [_ H]. destruct (i - start); discriminate.
  - rewrite IH. split.
    + intros [H|[H1 H2]].
      * injection H as <- <-. rewrite Nat.sub_diag. auto.
      * split; [lia|]. replace (i - start) with (S (i - S start)) by lia. exact H2.
    + intros [H1 H2]. destruct (i - start) as [|n] eqn:E.
      * left. simpl in H2. injection H2 as <-. f_equal. lia.
      * right. split; [lia|]. replace (i - S start) with n by lia. exact H2.
Qed.

Lemma in_seq_combine {A : Type} (l : list A) (start j : nat) (a : A) :
  In (a, j) (combine l (seq start (length l)))
  <-> start <= j /\ nth_error l (j - start) = Some a.
Proof.
  revert start; induction l as [|b l IH]; intros start; simpl.
  - split; [tauto|]. intros [_ H]. destruct (j - start); discriminate.
  - rewrite IH. split.
    + intros [H|[H1 H2]].
      * injection H as <- <-. rewrite Nat.sub_diag. auto.
      * split; [lia|]. replace (j - start) with (S (j - S start)) by lia. exact H2.
    + intros [H1 H2]. destruct (j - start) as [|n] eqn:E.
      * left. simpl in H2. injection H2 as <-. f_equal. lia.
      * right. split; [lia|]. replace (j - S start) with n by lia. exact H2.
Qed.

Section ArgsortFacts.

Variable K : Type.
Variable leb : K -> K -> bool.

Lemma insert_key_perm (x : nat * K) (l : list (nat * K)) :
  Permutation (insert_key leb x l) (x :: l).
Proof.
  induction l as [|y l IH]; simpl; [reflexivity|].
  destruct (leb (snd x) (snd y)); [reflexivity|].
  rewrite IH. apply perm_swap.
Qed.

Lemma sort_pairs_perm (l : list (nat * K)) : Permutation (sort_pairs leb l) l.
Proof.
  induction l as [|x l IH]; simpl; [reflexivity|].
  rewrite insert_key_perm. now constructor.
Qed.

Lemma argsort_perm (keys : list K) :
  Permutation (argsort leb keys) (seq 0 (length keys)).
Proof.
  unfold argsort. rewrite sort_pairs_perm.
  rewrite map_fst_combine; [reflexivity|]. apply length_seq.
Qed.

Lemma argsort_length (keys : list K) : length (argsort leb keys) = length keys.
Proof.
  rewrite (Permutation_length (argsort_perm keys)). apply length_seq.
Qed.

Lemma argsort_bound (keys : list K) :
  Forall (fun i => i < length keys) (argsort leb keys).
Proof.
  apply Forall_forall. intros i Hi.
  apply (Permutation_in _ (argsort_perm keys)) in Hi.
  apply in_seq in Hi. lia.
Qed.

Lemma argsort_NoDup (keys : list K) : NoDup (argsort leb keys).
Proof.
  apply (Permutation_NoDup (Permutation_sym (argsort_perm keys))), seq_NoDup.
Qed.

Hypothesis leb_total : forall a b, leb a b = true \/ leb b a = true.

Lemma insert_key_sorted (x : nat * K) (l : list (nat * K)) :
  Sorted (key_le leb) l -> Sorted (key_le leb) (insert_key leb x l).
Proof.
  induction 1 as [|y l Hs IH Hhd]; simpl.
  - repeat constructor.
  - destruct (leb (snd x) (snd y)) eqn:E.
    + constructor; [now constructor|]. constructor. exact E.
    + constructor; [exact IH|].
      destruct l as [|z l]; simpl.
      * constructor. unfold key_le; simpl. destruct (leb_total (snd x) (snd y)); congruence.
      * destruct (leb (snd x) (snd z)).
        -- constructor. unfold key_le; simpl. destruct (leb_total (snd x) (snd y)); congruence.
        -- constructor. now inversion Hhd.
Qed.

Lemma sort_pairs_sorted (l : list (nat * K)) : Sorted (key_le leb) (sort_pairs leb l).
Proof.
  induction l as [|x l IH]; simpl; [constructor|]. now apply insert_key_sorted.
Qed.

End ArgsortFacts.

(** Two sorted lists of numbers with the same elements are equal. *)
Lemma sorted_perm_unique (l m : list nat) :
  StronglySorted le l -> StronglySorted le m -> Permutation l m -> l = m.
Proof.
  revert m; induction l as [|a l IH]; intros m Hl Hm Hp.
  - apply Permutation_nil in Hp. now subst.
  - destruct m as [|b m].
    + apply Permutation_sym, Permutation_nil in Hp. discriminate.
    + apply StronglySorted_inv in Hl as [Hl Ha].
      apply StronglySorted_inv in Hm as [Hm Hb].
      assert (a = b) as ->.
      { assert (In a (b :: m)) as Ia by (eapply Permutation_in; [exact Hp | now left]).
        assert (In b (a :: l)) as Ib
            by (eapply Permutation_in; [apply Permutation_sym; exact Hp | now left]).
        rewrite Forall_forall in Ha, Hb.
        destruct Ia as [->|Ia]; [reflexivity|].
        destruct Ib as [->|Ib]; [reflexivity|].
        specialize (Ha _ Ib). specialize (Hb _ Ia). lia. }
      f_equal. apply IH; auto. eapply Permutation_cons_inv; eassumption.
Qed.

Lemma seq_strongly_sorted (start len : nat) : StronglySorted le (seq start len).
Proof.
  revert start; induction len as [|len IH]; intros start; simpl; constructor.
  - apply IH.
  - apply Forall_forall. intros i Hi. apply in_seq in Hi. lia.
Qed.

(** Sorting a permutation of [0 .. L-1] by value inverts it. *)
Lemma argsort_inverse (p : list nat) :
  Permutation p (seq 0 (length p)) ->
  forall j a, nth_error (argsort Nat.leb p) j = Some a <-> nth_error p a = Some j.
Proof.
  intros Hp j a.
  set (s := sort_pairs Nat.leb (combine (seq 0 (length p)) p)).
  assert (Hs : Permutation s (combine (seq 0 (length p)) p)) by apply sort_pairs_perm.
  assert (Hsnd : map snd s = seq 0 (length p)).
  { apply sorted_perm_unique.
    - apply Sorted_StronglySorted; [intros x y z; apply Nat.le_trans|].
      assert (Hsort : Sorted (key_le Nat.leb) s).
      { apply sort_pairs_sorted. intros x y.
        destruct (Nat.leb_spec x y); [now left|right]. apply Nat.leb_le. lia. }
      clear -Hsort. induction Hsort as [|x l _ IH Hhd]; simpl; constructor; auto.
      destruct Hhd as [|y l Hxy]; simpl; constructor.
      now apply Nat.leb_le.
    - apply seq_strongly_sorted.
    - rewrite Hs, map_snd_combine; [exact Hp | apply length_seq]. }
  assert (Hq : s = combine (argsort Nat.leb p) (seq 0 (length (argsort Nat.leb p)))).
  { rewrite argsort_length, <- Hsnd. unfold argsort. fold s.
    symmetry. apply combine_fst_snd. }
  transitivity (In (a, j) s).
  - rewrite Hq, in_seq_combine, Nat.sub_0_r. split; [intros H; split; [lia|exact H] | tauto].
  - split; intros H.
    + apply (Permutation_in _ Hs) in H. apply in_combine_seq in H.
      rewrite Nat.sub_0_r in H. tauto.
    + apply (Permutation_in _ (Permutation_sym Hs)).
      apply in_combine_seq. rewrite Nat.sub_0_r. split; [lia|exact H].
Qed.

(** * The masking stage *)

Lemma ids_shuffle_perm (noise : list Q) :
  Permutation (ids_shuffle noise) (seq 0 (length noise)).
Proof. apply argsort_perm. Qed.

Lemma ids_shuffle_length (noise : list Q) : length (ids_shuffle noise) = length noise.
Proof. apply argsort_length. Qed.

Lemma ids_restore_inverse (noise : list Q) (i j : nat) :
  nth_error (ids_restore noise) i = Some j <-> nth_error (ids_shuffle noise) j = Some i.
Proof.
  unfold ids_restore. apply argsort_inverse.
  rewrite ids_shuffle_length. apply ids_shuffle_perm.
Qed.

Lemma slice_to_length {A : Type} (k : Z) (l : list A) :
  (0 <= k <= Z.of_nat (length l))%Z -> length (slice_to k l) = Z.to_nat k.
Proof.
  intros H. unfold slice_to.
  destruct (Z.leb_spec 0 k); [|lia]. rewrite length_firstn. lia.
Qed.

Lemma slice_to_incl {A : Type} (k : Z) (l : list A) (a : A) :
  In a (slice_to k l) -> In a l.
Proof.
  unfold slice_to.
  assert (Hin : forall n, In a (firstn n l) -> In a l).
  { intros n H. rewrite <- (firstn_skipn n l). apply in_or_app. now left. }
  destruct (0 <=? k)%Z; apply Hin.
Qed.

Lemma ids_keep_length (k : Z) (noise : list Q) :
  (0 <= k <= Z.of_nat (length noise))%Z -> length (ids_keep k noise) = Z.to_nat k.
Proof.
  intros H. unfold ids_keep. apply slice_to_length. now rewrite ids_shuffle_length.
Qed.

Lemma ids_keep_bound (k : Z) (noise : list Q) :
  Forall (fun i => i < length noise) (ids_keep k noise).
Proof.
  apply Forall_forall. intros i Hi. apply slice_to_incl in Hi.
  pose proof (argsort_bound Qle_bool noise) as Hb.
  rewrite Forall_forall in Hb. now apply Hb.
Qed.

(** X1.  The index tensor of line 46 joins a rank-2 tensor with a rank-3
    tensor along the last axis: [tf.concat] rejects it for every batch
    size, sequence length, width and keep length.  The gather with the
    index tensor that [batch_dims=1] expects returns [n] rows per
    sample. *)
Lemma index_tensor_of_line_46_rejected :
  (forall B L D n : nat, Shape._random_masking B L D n = Raise InvalidArgumentError)
  /\ (forall B L D n : nat, Shape.gather_kept B L D n = Ok [B; n; D]).
Proof.
  split.
  - intros B L D n. unfold Shape._random_masking. simpl.
    unfold Shape.concat_last. simpl. unfold Shape.shape_eqb.
    destruct (list_eq_dec Nat.eq_dec _ _) as [E|_]; [discriminate E|reflexivity].
  - intros B L D n. unfold Shape.gather_kept, Shape.gather_nd_batch1. simpl.
    rewrite Nat.eqb_refl. reflexivity.
Qed.

Lemma NoDup_firstn {A : Type} (n : nat) (l : list A) : NoDup l -> NoDup (firstn n l).
Proof.
  intros H. rewrite <- (firstn_skipn n l) in H. eapply NoDup_app_remove_r; eassumption.
Qed.

(** C2.  For every row of noise, [ids_shuffle] and [ids_restore] are
    permutations of [0, L), each the inverse of the other, and gathering
    at [ids_restore] a sequence that was gathered at [ids_shuffle]
    returns the sequence in its original order. *)
Theorem masking_indices_inverse_permutations (noise : list Q) :
  Permutation (ids_shuffle noise) (seq 0 (length noise))
  /\ Permutation (ids_restore noise) (seq 0 (length noise))
  /\ (forall i j, nth_error (ids_restore noise) i = Some j
                  <-> nth_error (ids_shuffle noise) j = Some i)
  /\ (forall (A : Type) (xs : list A),
        length xs = length noise ->
        exists ys, gather xs (ids_shuffle noise) = Ok ys
                   /\ gather ys (ids_restore noise) = Ok xs).
Proof.
  split; [apply ids_shuffle_perm|].
  split.
  { unfold ids_restore. rewrite <- (ids_shuffle_length noise). apply argsort_perm. }
  split; [apply ids_restore_inverse|].
  intros A xs Hlen.
  destruct (@gather_total A xs (ids_shuffle noise)) as [ys Hys].
  { rewrite Hlen. apply argsort_bound. }
  exists ys. split; [exact Hys|].
  apply gather_Forall2. apply Forall2_nth_error_intro.
  - unfold ids_restore. now rewrite argsort_length, ids_shuffle_length.
  - intros i a x Ha Hx. apply ids_restore_inverse in Ha.
    apply gather_Forall2 in Hys.
    destruct (Forall2_nth_error_elim Hys _ Ha) as [y [Hy Hxy]].
    congruence.
Qed.

(** * The encoder, the decoder and the classifier *)

(** ** Shapes through the layers *)

Lemma mapM2_total {A B C : Type} (f : A -> B -> result C) (P : C -> Prop)
  (xs : list A) (ys : list B) :
  Forall2 (fun x y => exists c, f x y = Ok c /\ P c) xs ys ->
  exists cs, mapM2 f xs ys = Ok cs /\ length cs = length xs /\ Forall P cs.
Proof.
  induction 1 as [|x y xs ys [c [Hc Pc]] _ [cs [Hcs [Hlen HP]]]]; simpl.
  - exists []. auto.
  - exists (c :: cs). rewrite Hc, Hcs. simpl. auto.
Qed.

Lemma bzip_same_length {A B C : Type} (f : A -> B -> result C)
  (xs : list A) (ys : list B) :
  length xs = length ys -> bzip f xs ys = mapM2 f xs ys.
Proof. intros H. unfold bzip. now rewrite H, Nat.eqb_refl. Qed.

Lemma vec_op_same_width (op : Q -> Q -> Q) (a b : vec) :
  length a = length b ->
  exists c, vec_op op a b = Ok c /\ length c = length a.
Proof.
  intros H. unfold vec_op. rewrite bzip_same_length by exact H.
  destruct (@mapM2_total _ _ _ (lift_op op) (fun _ => True) a b) as [c [Hc [Hl _]]].
  - clear -H. revert b H; induction a as [|x a IH]; intros [|y b] H; simpl in H;
      try discriminate; constructor; [unfold lift_op; eauto | apply IH; lia].
  - eauto.
Qed.

Lemma same_shape_length (x y : sample) : same_shape x y -> length x = length y.
Proof. apply Forall2_length. Qed.

Lemma same_shape_width (D : nat) (x y : sample) :
  same_shape x y -> rows_width D y -> rows_width D x.
Proof.
  induction 1 as [|r s x y Hrs _ IH]; intros Hy; [constructor|].
  inversion Hy; subst. constructor; [congruence | now apply IH].
Qed.

Lemma rows_width_same_shape (D : nat) (x y : sample) :
  length x = length y -> rows_width D x -> rows_width D y -> same_shape x y.
Proof.
  revert y; induction x as [|r x IH]; intros [|s y] Hlen Hx Hy; simpl in Hlen;
    try discriminate; constructor; inversion Hx; inversion Hy; subst.
  - congruence.
  - apply IH; auto.
Qed.

Lemma sample_op_same_shape (op : Q -> Q -> Q) (x y : sample) :
  same_shape x y ->
  exists z, sample_op op x y = Ok z /\ same_shape z x.
Proof.
  intros H. unfold sample_op.
  rewrite bzip_same_length by (now apply same_shape_length).
  induction H as [|r s x y Hrs _ [z [Hz Hs]]]; simpl.
  - exists []. split; [reflexivity | constructor].
  - destruct (vec_op_same_width op r s Hrs) as [c [Hc Hl]].
    exists (c :: z). rewrite Hc, Hz. simpl. split; [reflexivity|].
    constructor; assumption.
Qed.

Lemma same_shape_sym (x y : sample) : same_shape x y -> same_shape y x.
Proof. induction 1; constructor; auto. Qed.

Lemma same_shape_trans (x y z : sample) :
  same_shape x y -> same_shape y z -> same_shape x z.
Proof.
  intros H; revert z; induction H as [|r s x y Hrs _ IH]; intros z Hz;
    inversion Hz; subst; constructor.
  - congruence.
  - now apply IH.
Qed.

Lemma SwinBlock_call_shape (b : SwinBlock) (x : sample) :
  shape_preserving b ->
  exists z, SwinBlock_call b x = Ok z /\ same_shape z x.
Proof.
  intros Hb. unfold SwinBlock_call.
  destruct (Hb x) as [Ha _].
  destruct (sample_op_same_shape Qplus (same_shape_sym Ha)) as [x1 [H1 S1]].
  rewrite H1. simpl.
  destruct (Hb x1) as [_ Hm].
  destruct (sample_op_same_shape Qplus (same_shape_sym Hm)) as [x2 [H2 S2]].
  exists x2. split; [exact H2|]. eapply same_shape_trans; eassumption.
Qed.

Lemma blocks_call_shape (bs : list SwinBlock) (x : sample) :
  Forall shape_preserving bs ->
  exists z, blocks_call bs x = Ok z /\ same_shape z x.
Proof.
  intros H; revert x; induction H as [|b bs Hb _ IH]; intros x; simpl.
  - exists x. split; [reflexivity|].
    induction x; constructor; auto.
  - destruct (SwinBlock_call_shape x Hb) as [x1 [H1 S1]]. rewrite H1. simpl.
    destruct (IH x1) as [z [Hz Sz]]. exists z. split; [exact Hz|].
    eapply same_shape_trans; eassumption.
Qed.

Lemma vsum_rows_length (D : nat) (rows : list vec) :
  rows_width D rows -> length (vsum_rows D rows) = D.
Proof.
  induction 1 as [|r rows Hr _ IH]; simpl.
  - apply repeat_length.
  - rewrite length_map, length_combine, IH, Hr. apply Nat.min_id.
Qed.

Lemma Dense_call_length (d : Dense) (D : nat) (x : vec) :
  Dense_units d D -> length (Dense_call d x) = D.
Proof.
  intros [Hb Hk]. unfold Dense_call.
  rewrite length_map, length_combine, Hb, vsum_rows_length; [apply Nat.min_id|].
  unfold rows_width in *. apply Forall_forall. intros r Hr.
  apply in_map_iff in Hr as [[q row] [<- Hin]]. simpl.
  unfold vscale. rewrite length_map.
  apply in_combine_r in Hin. rewrite Forall_forall in Hk. now apply Hk.
Qed.

Lemma firstn_width (D n : nat) (s : sample) : rows_width D s -> rows_width D (firstn n s).
Proof.
  intros H. unfold rows_width in *. rewrite Forall_forall in *.
  intros r Hr. apply H. rewrite <- (firstn_skipn n s). apply in_or_app. now left.
Qed.

Lemma zero_block_shape_preserving : shape_preserving Demo.zero_block.
Proof.
  assert (H : forall x : sample, same_shape (map (map (fun _ : Q => 0%Q)) x) x).
  { induction x as [|r x IH]; simpl; constructor; [apply length_map | exact IH]. }
  intros x. split; apply H.
Qed.

Lemma Demo_well_formed : well_formed Demo.model 64.
Proof.
  constructor.
  - split; [reflexivity|]. vm_compute. repeat (constructor; [reflexivity|]). constructor.
  - reflexivity.
  - unfold rows_width. apply Forall_forall. intros r Hr.
    change (pos_embed Demo.model)
      with (map (fun j => Demo.unit_row 64 1 (Demo.nat_Q j)) (seq 0 23)) in Hr.
    apply in_map_iff in Hr as [j [<- _]]. unfold Demo.unit_row.
    now rewrite length_map, length_seq.
  - simpl. repeat (constructor; [apply zero_block_shape_preserving|]). constructor.
  - simpl. repeat (constructor; [apply zero_block_shape_preserving|]). constructor.
Qed.

Lemma train_linear (M : Swin_MAE) (head : Dense) :
  train M "linear" head
  = Ok {| model_after :=
            set_encoder_trainable
              (set_classifier M (_add_classification_head head false)) true;
          checkpoint := path_join (model_dir M) "finetune_model.h5" |}.
Proof. reflexivity. Qed.

(** * The gradient tape *)

Import Tape.

Lemma tadd_detached (a b : traced) : detached a -> detached b -> detached (tadd a b).
Proof. unfold detached, tadd. simpl. now intros -> ->. Qed.

Lemma tmul_detached (a b : traced) : detached a -> detached b -> detached (tmul a b).
Proof. unfold detached, tmul. simpl. now intros -> ->. Qed.

Lemma tunary_detached (f f' : Q -> Q) (a : traced) : detached a -> detached (tunary f f' a).
Proof. unfold detached, tunary. simpl. now intros ->. Qed.

Lemma const_detached (q : Q) : detached (const q).
Proof. reflexivity. Qed.

Lemma tsum_detached (l : tvec) : Forall detached l -> detached (tsum l).
Proof.
  induction 1 as [|a l Ha _ IH]; simpl; [reflexivity|]. now apply tadd_detached.
Qed.

Lemma map2_detached (f : traced -> traced -> traced) (l m : tvec) :
  (forall a b, detached a -> detached b -> detached (f a b)) ->
  Forall detached l -> Forall detached m ->
  Forall detached (map (fun p => f (fst p) (snd p)) (combine l m)).
Proof.
  intros Hf Hl; revert m; induction Hl as [|a l Ha _ IH]; intros m Hm; simpl;
    [constructor|].
  destruct Hm as [|b m Hb Hm]; simpl; constructor; auto.
Qed.

Lemma tsum_rows_detached (width : nat) (rows : list tvec) :
  Forall (Forall detached) rows -> Forall detached (tsum_rows width rows).
Proof.
  induction 1 as [|r rows Hr _ IH]; simpl.
  - apply Forall_forall. intros t Ht. apply repeat_spec in Ht. now subst.
  - apply map2_detached; auto. apply tadd_detached.
Qed.

Lemma tmean_rows_detached (s : list tvec) :
  Forall (Forall detached) s -> Forall detached (tmean_rows s).
Proof.
  intros H. unfold tmean_rows. apply Forall_forall. intros t Ht.
  apply in_map_iff in Ht as [u [<- Hu]].
  apply tmul_detached; [reflexivity|].
  pose proof (tsum_rows_detached (length (hd [] s)) H) as Hs.
  rewrite Forall_forall in Hs. now apply Hs.
Qed.

Lemma stop_gradient_detached (v : tvec) : Forall detached (map stop_gradient v).
Proof.
  apply Forall_forall. intros t Ht. apply in_map_iff in Ht as [u [<- _]]. reflexivity.
Qed.

Lemma traced_bias_encoder (i : nat) (d : Dense) :
  Forall detached (traced_bias (EncoderVar i) d).
Proof.
  apply Forall_forall. intros t Ht. apply in_map_iff in Ht as [u [<- _]]. reflexivity.
Qed.

Lemma traced_kernel_encoder (i : nat) (d : Dense) :
  Forall (Forall detached) (traced_kernel (EncoderVar i) d).
Proof.
  apply Forall_forall. intros r Hr. apply in_map_iff in Hr as [u [<- _]].
  apply Forall_forall. intros t Ht. apply in_map_iff in Ht as [v [<- _]]. reflexivity.
Qed.

Lemma tDense_call_encoder (i : nat) (d : Dense) (x : tvec) :
  Forall detached x -> Forall detached (tDense_call (EncoderVar i) d x).
Proof.
  intros Hx. unfold tDense_call.
  apply map2_detached; [apply tadd_detached | | apply traced_bias_encoder].
  apply tsum_rows_detached.
  pose proof (traced_kernel_encoder i d) as Hk.
  revert Hk. generalize (traced_kernel (EncoderVar i) d). intros ker Hk.
  revert ker Hk. induction Hx as [|a x Ha _ IH]; intros ker Hk; simpl; [constructor|].
  destruct Hk as [|r ker Hr Hk]; simpl; constructor; auto.
  apply Forall_forall. intros t Ht. apply in_map_iff in Ht as [u [<- Hu]].
  apply tmul_detached; auto. rewrite Forall_forall in Hr. now apply Hr.
Qed.

Lemma tadd_connected_r (a b : traced) : connected b -> connected (tadd a b).
Proof.
  intros [g Hg]. unfold connected, tadd, join. simpl. rewrite Hg.
  destruct (grad a); eauto.
Qed.

Lemma tmul_connected_l (a b : traced) : connected a -> connected (tmul a b).
Proof.
  intros [g Hg]. unfold connected, tmul, join. simpl. rewrite Hg. eauto.
Qed.

Lemma tmul_connected_r (a b : traced) : connected b -> connected (tmul a b).
Proof.
  intros [g Hg]. unfold connected, tmul, join. simpl. rewrite Hg.
  destruct (grad a); eauto.
Qed.

Lemma tunary_connected (f f' : Q -> Q) (a : traced) : connected a -> connected (tunary f f' a).
Proof. intros [g Hg]. unfold connected, tunary. simpl. rewrite Hg. eauto. Qed.

Lemma tsum_connected (l : tvec) : Exists connected l -> connected (tsum l).
Proof.
  induction 1 as [a l Ha|a l _ IH]; simpl.
  - destruct Ha as [g Hg]. unfold connected, tadd, join. simpl. rewrite Hg. eauto.
  - now apply tadd_connected_r.
Qed.

Lemma nth_error_map2 {A B C : Type} (f : A -> B -> C) (l : list A) (m : list B)
  (j : nat) (a : A) (b : B) :
  nth_error l j = Some a -> nth_error m j = Some b ->
  nth_error (map (fun p => f (fst p) (snd p)) (combine l m)) j = Some (f a b).
Proof.
  revert m j; induction l as [|x l IH]; intros [|y m] [|j] Ha Hb; simpl in *;
    try discriminate.
  - now injection Ha as <-; injection Hb as <-.
  - now apply IH.
Qed.

Lemma nth_error_combine_seq {A : Type} (l : list A) (start j : nat) (a : A) :
  nth_error l j = Some a ->
  nth_error (combine (seq start (length l)) l) j = Some (start + j, a).
Proof.
  revert start j; induction l as [|b l IH]; intros start [|j] H; simpl in *;
    try discriminate.
  - injection H as <-. do 2 f_equal. lia.
  - rewrite (IH (S start) j H). do 2 f_equal. lia.
Qed.

Lemma tsum_rows_length (C : nat) (rows : list tvec) :
  Forall (fun r => length r = C) rows -> length (tsum_rows C rows) = C.
Proof.
  induction 1 as [|r rows Hr _ IH]; simpl.
  - apply repeat_length.
  - rewrite length_map, length_combine, IH, Hr. apply Nat.min_id.
Qed.

Lemma traced_kernel_width (w : variable) (d : Dense) (C : nat) :
  rows_width C (kernel d) -> Forall (fun r => length r = C) (traced_kernel w d).
Proof.
  intros H. apply Forall_forall. intros r Hr.
  apply in_map_iff in Hr as [[i row] [<- Hin]].
  unfold number. rewrite length_map, length_combine, length_seq, Nat.min_id.
  apply in_combine_r in Hin. unfold rows_width in H. rewrite Forall_forall in H.
  now apply H.
Qed.

Lemma tDense_call_bias_connected (j C : nat) (d : Dense) (x : tvec) :
  Dense_units d C -> j < C ->
  length (tDense_call (HeadBias j) d x) = C
  /\ exists t, nth_error (tDense_call (HeadBias j) d x) j = Some t /\ connected t.
Proof.
  intros [Hb Hk] Hj. unfold tDense_call.
  set (rows := map (fun p : traced * list traced => map (tmul (fst p)) (snd p))
                   (combine x (traced_kernel (HeadBias j) d))).
  assert (Hrows : length (tsum_rows (length (bias d)) rows) = C).
  { rewrite Hb. apply tsum_rows_length. apply Forall_forall. intros r Hr.
    apply in_map_iff in Hr as [[a row] [<- Hin]]. simpl. rewrite length_map.
    apply in_combine_r in Hin.
    pose proof (@traced_kernel_width (HeadBias j) d C Hk) as Hw.
    rewrite Forall_forall in Hw. now apply Hw. }
  assert (Hbias : length (traced_bias (HeadBias j) d) = C).
  { unfold traced_bias, number.
    now rewrite length_map, length_combine, length_seq, Nat.min_id. }
  split.
  - now rewrite length_map, length_combine, Hrows, Hbias, Nat.min_id.
  - destruct (nth_error (tsum_rows (length (bias d)) rows) j) as [a|] eqn:Ha;
      [|apply nth_error_None in Ha; lia].
    destruct (nth_error (bias d) j) as [q|] eqn:Hq;
      [|apply nth_error_None in Hq; lia].
    assert (Hw : nth_error (traced_bias (HeadBias j) d) j = Some (watched q)).
    { unfold traced_bias, number. rewrite nth_error_map.
      rewrite (nth_error_combine_seq (bias d) 0 j Hq). simpl. now rewrite Nat.eqb_refl. }
    exists (tadd a (watched q)). split.
    + now apply nth_error_map2.
    + apply tadd_connected_r. unfold connected, watched. simpl. eauto.
Qed.

Section TapeFacts.

Variables exp ln : Q -> Q.
Variable update : Q -> Q -> Q.

Lemma softmax_detached (z : tvec) : Forall detached z -> Forall detached (softmax exp z).
Proof.
  intros Hz. unfold softmax.
  assert (He : Forall detached (map (texp exp) z)).
  { apply Forall_forall. intros t Ht. apply in_map_iff in Ht as [u [<- Hu]].
    apply tunary_detached. rewrite Forall_forall in Hz. now apply Hz. }
  apply Forall_forall. intros t Ht. apply in_map_iff in Ht as [u [<- Hu]].
  apply tmul_detached.
  - rewrite Forall_forall in He. now apply He.
  - apply tunary_detached, tsum_detached, He.
Qed.

Lemma categorical_crossentropy_detached (y : vec) (p : tvec) :
  Forall detached p -> detached (categorical_crossentropy ln y p).
Proof.
  intros Hp. unfold categorical_crossentropy.
  apply tunary_detached, tsum_detached.
  revert y; induction Hp as [|a p Ha _ IH]; intros [|q y]; simpl; constructor; auto.
  apply tmul_detached; [reflexivity|]. now apply tunary_detached.
Qed.

(** With the head of the linear mode the loss of a sample is detached
    from every encoder weight, whatever the encoder output carries. *)
Lemma sample_loss_linear_detached (i : nat) (head : Dense) (z : list tvec) (y : vec) :
  exists l, sample_loss exp ln (EncoderVar i)
              (_add_classification_head head false) z y = Ok l
            /\ detached l.
Proof.
  eexists. split; [reflexivity|].
  apply categorical_crossentropy_detached, softmax_detached, tDense_call_encoder,
    stop_gradient_detached.
Qed.

Lemma gradient_linear_none (i : nat) (head : Dense) (zs : list (list tvec)) (ys : list vec) :
  gradient exp ln (EncoderVar i) (_add_classification_head head false) zs ys = Ok None.
Proof.
  unfold gradient, batch_loss.
  destruct (@mapM2_total _ _ _
              (sample_loss exp ln (EncoderVar i) (_add_classification_head head false))
              detached (firstn (length ys) zs) (firstn (length zs) ys))
    as [ls [Hls [_ Hd]]].
  - clear. revert ys; induction zs as [|z zs IH]; intros [|y ys]; simpl; constructor.
    + apply sample_loss_linear_detached.
    + apply IH.
  - assert (E : forall (A B C : Type) (f : A -> B -> result C) l m,
               mapM2 f (firstn (length m) l) (firstn (length l) m) = mapM2 f l m).
    { clear. intros A B C f l; induction l as [|a l IH]; intros [|b m]; simpl; auto.
      now rewrite IH. }
    rewrite E in Hls. rewrite Hls.
    change (Ok (grad (tmul (const (1 / Qlen ls)) (tsum ls))) = Ok None).
    f_equal.
    apply tmul_detached; [reflexivity | now apply tsum_detached].
Qed.

Lemma train_step_encoder_linear (trainable : bool) (head : Dense)
  (encoder_out : nat -> list (list tvec)) (ys : list vec) (theta : list Q) :
  train_step_encoder exp ln update trainable (_add_classification_head head false)
    encoder_out ys theta = Ok theta.
Proof.
  unfold train_step_encoder. destruct trainable; [|reflexivity].
  apply mapM_Forall2. unfold number.
  generalize 0. induction theta as [|v theta IH]; intros start; simpl; constructor.
  - rewrite gradient_linear_none. reflexivity.
  - apply IH.
Qed.

Lemma softmax_connected (z : tvec) :
  Exists connected z -> Forall connected (softmax exp z).
Proof.
  intros Hz. unfold softmax.
  assert (He : connected (tsum (map (texp exp) z))).
  { apply tsum_connected. apply Exists_exists in Hz as [t [Ht Hc]].
    apply Exists_exists. exists (texp exp t). split; [now apply in_map|].
    now apply tunary_connected. }
  apply Forall_forall. intros t Ht. apply in_map_iff in Ht as [u [<- _]].
  apply tmul_connected_r. now apply tunary_connected.
Qed.

Lemma categorical_crossentropy_connected (y : vec) (p : tvec) :
  y <> [] -> p <> [] -> Forall connected p ->
  connected (categorical_crossentropy ln y p).
Proof.
  intros Hy Hp Hc. destruct y as [|q y]; [contradiction|].
  destruct p as [|t p]; [contradiction|].
  unfold categorical_crossentropy. apply tunary_connected, tsum_connected.
  simpl. apply Exists_cons_hd. apply tmul_connected_r, tunary_connected.
  now inversion Hc.
Qed.

(** The loss of a sample is connected to every bias entry of the head,
    with or without the Lambda layer. *)
Lemma sample_loss_head_bias_connected (j C : nat) (head : Dense) (trainable : bool)
  (z : list tvec) (y : vec) :
  Dense_units head C -> j < C -> y <> [] ->
  exists l, sample_loss exp ln (HeadBias j)
              (_add_classification_head head trainable) z y = Ok l
            /\ connected l.
Proof.
  intros Hd Hj Hy.
  assert (H : forall x : tvec,
             connected (categorical_crossentropy ln y
                          (softmax exp (tDense_call (HeadBias j) head x)))).
  { intros x. destruct (@tDense_call_bias_connected j C head x Hd Hj) as [Hl [t [Ht Hc]]].
    apply categorical_crossentropy_connected; [exact Hy | |].
    - unfold softmax. intros E. apply (f_equal (@length _)) in E.
      rewrite !length_map, Hl in E. simpl in E. lia.
    - apply softmax_connected. apply Exists_exists. exists t.
      split; [eapply nth_error_In; eassumption | exact Hc]. }
  destruct trainable; eexists; (split; [reflexivity | apply H]).
Qed.

Lemma gradient_head_bias_some (j C : nat) (head : Dense) (trainable : bool)
  (zs : list (list tvec)) (ys : list vec) :
  Dense_units head C -> j < C ->
  zs <> [] -> length ys = length zs -> Forall (fun y : vec => y <> []) ys ->
  exists g, gradient exp ln (HeadBias j)
              (_add_classification_head head trainable) zs ys = Ok (Some g).
Proof.
  intros Hd Hj Hz Hlen Hy. unfold gradient, batch_loss.
  destruct (@mapM2_total _ _ _
              (sample_loss exp ln (HeadBias j) (_add_classification_head head trainable))
              connected zs ys) as [ls [Hls [Hl Hc]]].
  - clear Hz. revert ys Hlen Hy; induction zs as [|z zs IH]; intros [|y ys] Hlen Hy;
      simpl in Hlen; try discriminate; constructor.
    + apply (@sample_loss_head_bias_connected j C); auto. now inversion Hy.
    + apply IH; [lia | now inversion Hy].
  - rewrite Hls.
    assert (Hg : connected (tmul (const (1 / Qlen ls)) (tsum ls))).
    { apply tmul_connected_r, tsum_connected.
      destruct ls as [|l ls]; [destruct zs; [contradiction | discriminate]|].
      apply Exists_cons_hd. now inversion Hc. }
    destruct Hg as [g Hg]. exists g. simpl. now rewrite <- Hg.
Qed.

End TapeFacts.

(** C6.  After [train(..., mode='linear')] the classifier is the head
    built with [trainable=False].  On the tape of a training step the
    loss is then detached from every encoder weight (the gradient is
    [None], that is zero), whatever the encoder output carries, and the
    step leaves the encoder weights as they were; the bias entries of
    the head do receive a gradient. *)
Theorem linear_mode_leaves_encoder_unchanged
  (exp ln : Q -> Q) (update : Q -> Q -> Q)
  (M : Swin_MAE) (head : Dense) (t : trained)
  (encoder_out : nat -> list (list tvec)) (ys : list vec) (theta : list Q) :
  train M "linear" head = Ok t ->
  (forall i, gradient exp ln (EncoderVar i) (classifier (model_after t))
               (encoder_out i) ys = Ok None)
  /\ train_step_encoder exp ln update (encoder_trainable (model_after t))
       (classifier (model_after t)) encoder_out ys theta = Ok theta
  /\ (forall (C j : nat) (zs : list sample),
         Dense_units head C -> j < C -> zs <> [] -> length ys = length zs ->
         Forall (fun y : vec => y <> []) ys ->
         exists g, gradient exp ln (HeadBias j) (classifier (model_after t))
                     (map (map (map const)) zs) ys = Ok (Some g)).
Proof.
  intros Ht.
  assert (Hc : classifier (model_after t) = _add_classification_head head false).
  { rewrite train_linear in Ht. now injection Ht as <-. }
  rewrite Hc.
  split; [intros i; apply gradient_linear_none|].
  split; [apply train_step_encoder_linear|].
  intros C j zs Hd Hj Hz Hlen Hy.
  apply (@gradient_head_bias_some exp ln j C head false); auto.
  - destruct zs; [contradiction | discriminate].
  - now rewrite length_map.
Qed.

Lemma linear_mode_leaves_encoder_unchanged_witness :
  let exp := fun q : Q => q in
  let ln := fun q : Q => q in
  let update := fun v g : Q => (v - g)%Q in
  let t := {| model_after :=
                set_encoder_trainable
                  (set_classifier Demo.model (_add_classification_head Demo.head false))
                  true;
              checkpoint := "saved_models/swin_mae/finetune_model.h5" |} in
  let encoder_out := fun _ : nat => [map (map watched) (repeat (Demo.unit_row 64 0 1%Q) 5)] in
  let ys := [[1; 0; 0; 0; 0; 0; 0]%Q] in
  train Demo.model "linear" Demo.head = Ok t
  /\ (forall i, gradient exp ln (EncoderVar i) (classifier (model_after t))
                  (encoder_out i) ys = Ok None)
  /\ train_step_encoder exp ln update (encoder_trainable (model_after t))
       (classifier (model_after t)) encoder_out ys [1; 2; 3]%Q = Ok [1; 2; 3]%Q
  /\ exists g, gradient exp ln (HeadBias 0) (classifier (model_after t))
                 (map (map (map const)) [repeat (Demo.unit_row 64 0 1%Q) 5]) ys = Ok (Some g).
Proof.
  intros exp ln update t encoder_out ys.
  assert (Ht : train Demo.model "linear" Demo.head = Ok t) by reflexivity.
  destruct (@linear_mode_leaves_encoder_unchanged exp ln update Demo.model Demo.head t
              encoder_out ys [1; 2; 3]%Q Ht) as [H1 [H2 H3]].
  split; [exact Ht|]. split; [exact H1|]. split; [exact H2|].
  apply (H3 7 0 [repeat (Demo.unit_row 64 0 1%Q) 5]).
  - split; [reflexivity|]. vm_compute. repeat (constructor; [reflexivity|]). constructor.
  - lia.
  - discriminate.
  - reflexivity.
  - repeat constructor. discriminate.
Defined.

(** The head of the fine-tune mode has no Lambda: the same tape then
    carries a gradient from the loss to an encoder weight. *)
Lemma fine_tune_gradient_reaches_encoder :
  match gradient (fun q => q) (fun q => q) (EncoderVar 0)
          (_add_classification_head Demo.head true)
          [map (map watched) (repeat (Demo.unit_row 64 0 1%Q) 5)]
          [[1; 0; 0; 0; 0; 0; 0]%Q]
  with
  | Ok (Some _) => True
  | _ => False
  end.
Proof. vm_compute. exact I. Qed.

(** * Elementwise operations on tensors of one shape *)








(** * The ViT patch stage *)

Lemma has_shape_flat_length (L F : nat) (x : batch) :
  ViT.has_shape (L, F) x -> length (concat (concat x)) = length x * (L * F).
Proof.
  assert (Hs : forall s : sample,
             Forall (fun r : vec => length r = F) s -> length (concat s) = length s * F).
  { induction 1 as [|r s Hr _ IH]; simpl; [reflexivity|].
    rewrite length_app, IH, Hr. reflexivity. }
  induction 1 as [|s x [Hl Hw] _ IH]; [reflexivity|].
  simpl in Hl, Hw. simpl. rewrite concat_app, length_app, IH, (Hs s Hw), Hl. lia.
Qed.

(** C4.  With the default input shape (23, 4) the positional table has
    [(23 // 4) * (4 // 1) = 20] rows, but the reshape of [Patches] asks
    for rows of [4 * 4 = 16] entries out of the 92 entries of a sample:
    the free dimension does not come out whole and the stage raises for
    every batch of that shape that holds a sample. *)
Theorem default_shape_patch_stage_raises (pe : ViT.PatchEncoder) (x : batch) :
  ViT.has_shape (23, 4) x -> x <> [] ->
  ViT.build_num_patches (23, 4) = 20
  /\ ViT.Patches_call 4 4 x = Raise InvalidArgumentError
  /\ ViT.patch_stage (23, 4) pe x = Raise InvalidArgumentError.
Proof.
  intros H Hne. split; [reflexivity|].
  assert (E : ViT.Patches_call 4 4 x = Raise InvalidArgumentError).
  { unfold ViT.Patches_call, ViT.reshape.
    rewrite (has_shape_flat_length H).
    destruct x as [|s x']; [contradiction|]. cbn [length].
    set (B := length x').
    change (4 * 4) with 16. change (23 * 4) with 92.
    change (S B =? 0) with false. change (16 =? 0) with false. cbv iota.
    rewrite Nat.Div0.mul_mod_distr_l. change (92 mod 16) with 12.
    destruct (S B * 12 =? 0) eqn:E1; [apply Nat.eqb_eq in E1; lia | reflexivity]. }
  split; [exact E|]. unfold ViT.patch_stage. simpl snd. rewrite E. reflexivity.
Qed.

Lemma default_shape_patch_stage_raises_witness :
  ViT.build_num_patches (23, 4) = 20
  /\ ViT.Patches_call 4 4 [Demo.x] = Raise InvalidArgumentError
  /\ ViT.patch_stage (23, 4) (Demo.patch_encoder 20) [Demo.x] = Raise InvalidArgumentError.
Proof.
  apply (@default_shape_patch_stage_raises (Demo.patch_encoder 20) [Demo.x]).
  - repeat constructor.
  - discriminate.
Defined.

(** Other shapes, for comparison: with (24, 4) the reshape returns six
    patches while the table has twenty-four rows, and the sum of the
    two raises; with one feature and a length that is a multiple of
    four the stage returns [num_patches] rows of the model width. *)
Lemma patch_stage_other_shapes :
  ViT.build_num_patches (24, 4) = 24
  /\ option_map (map (@length vec))
       (match ViT.Patches_call 4 4 (Demo.ones 24 4) with
        | Ok p => Some p | Raise _ => None end) = Some [6]
  /\ ViT.patch_stage (24, 4) (Demo.patch_encoder 24) (Demo.ones 24 4)
     = Raise InvalidArgumentError
  /\ ViT.build_num_patches (8, 1) = 2
  /\ option_map (map (map (@length Q)))
       (match ViT.patch_stage (8, 1)
                {| ViT.num_patches := 2;
                   ViT.projection := {| kernel := repeat (Demo.zeros 64) 4;
                                        bias := Demo.zeros 64 |};
                   ViT.position_embedding := repeat (Demo.zeros 64) 2 |}
                (Demo.ones 8 1) with
        | Ok p => Some p | Raise _ => None end) = Some [[64; 64]].
Proof. repeat split; vm_compute; reflexivity. Qed.

(** * The ViT life cycle *)

(** C10.  A model returned by [ViT.load] carries the restored network
    and a label encoder that was never fitted; [evaluate] on it raises
    at the transform of the labels, before the network predicts and
    before any metric is computed. *)
Theorem loaded_model_evaluate_raises
  (saved built : ViT.KerasModel) (vit : ViT.ViT) :
  ViT.load saved built = Ok vit ->
  ViT.model vit = saved
  /\ ViT.encoder vit = ViT.LabelEncoder_new
  /\ forall (Metrics : Type) (calculate_metrics : list nat -> list nat -> Metrics)
            (x_test : batch) (y_test : list Z),
       ViT.evaluate calculate_metrics vit x_test y_test = ([], Raise NotFittedError).
Proof.
  unfold ViT.load, ViT.init. intros H.
  destruct (ViT.build_num_patches (ViT.model_input_shape saved) =? 0); [discriminate|].
  simpl in H. injection H as <-. repeat split.
Qed.

Lemma loaded_model_evaluate_raises_witness :
  exists vit,
    ViT.load Demo.network Demo.network = Ok vit
    /\ ViT.model vit = Demo.network
    /\ ViT.encoder vit = ViT.LabelEncoder_new
    /\ forall (Metrics : Type) (calculate_metrics : list nat -> list nat -> Metrics)
              (x_test : batch) (y_test : list Z),
         ViT.evaluate calculate_metrics vit x_test y_test = ([], Raise NotFittedError).
Proof.
  eexists. split; [reflexivity|].
  apply (@loaded_model_evaluate_raises Demo.network Demo.network). reflexivity.
Defined.

(** After [train] the encoder is fitted and [evaluate] runs to the end. *)
Lemma trained_model_evaluates :
  exists vit0 vit,
    ViT.init (23, 4) 7 Demo.network = Ok vit0
    /\ ViT.train vit0 [3; 1; 2; 1]%Z [2; 3]%Z Demo.network = Ok vit
    /\ ViT.evaluate (fun y_true y_pred => (y_true, y_pred)) vit [Demo.x; Demo.x] [1; 3]%Z
       = ([ViT.Predict; ViT.CalculateMetrics; ViT.PrintMetricsSummary;
           ViT.SaveVisualizations], Ok ([0; 2], [0; 0])).
Proof. do 2 eexists. repeat split. Qed.

(** * The keep length *)

(** C1, as stated, fails.  For a hundred patches and [mask_ratio = 0.41]
    the specification's [floor(L * (1 - r))] is 59, for the decimal
    0.41 and for the exact value of the Python float alike, while the
    binary32 product is just below 59 and truncates to 58: line 44
    keeps 58 indices of every row of noise. *)
Lemma keep_length_is_not_floor :
  Float.len_keep 100 (Float.decimal 41 100) = Some 58%Z
  /\ Qfloor (100 * (1 - (41 # 100))) = 59%Z
  /\ Qfloor (100 * (1 - Float.to_Q (Float.decimal 41 100))) = 59%Z
  /\ forall noise : list Q,
       length noise = 100 ->
       length (ids_keep 58 noise) = 58
       /\ length (ids_keep 58 noise) <> 59.
Proof.
  split; [vm_compute; reflexivity|].
  split; [vm_compute; reflexivity|].
  split; [vm_compute; reflexivity|].
  intros noise Hn.
  assert (Hk : length (ids_keep 58 noise) = 58).
  { rewrite ids_keep_length; [reflexivity | rewrite Hn; simpl; lia]. }
  split; [exact Hk|]. rewrite Hk. discriminate.
Qed.

(** Where the binary32 product is exact the keep length is the floor:
    for the mask ratios 0, 1/4, 1/2 and 3/4 and every length up to
    4096. *)
Lemma keep_length_exact_for_quarters (L : nat) (n : Z) :
  L <= 4096 -> In n [0; 1; 2; 3]%Z ->
  Float.len_keep L (Float.decimal n 4)
  = Some (Qfloor (inject_Z (Z.of_nat L) * (1 - (n # 4)))).
Proof.
  intros HL Hn.
  assert (H : forallb (fun n =>
                forallb (fun L =>
                  match Float.len_keep L (Float.decimal n 4) with
                  | Some k => Z.eqb k (Qfloor (inject_Z (Z.of_nat L) * (1 - (n # 4))))
                  | None => false
                  end) (seq 0 4097)) [0; 1; 2; 3]%Z = true)
    by (vm_compute; reflexivity).
  rewrite forallb_forall in H. specialize (H n Hn).
  rewrite forallb_forall in H. specialize (H L).
  assert (HinL : In L (seq 0 4097)) by (apply in_seq; lia).
  specialize (H HinL).
  destruct (Float.len_keep L (Float.decimal n 4)); [|discriminate].
  apply Z.eqb_eq in H. now subst.
Qed.

(** C1, as the code has it.  The masking stage keeps exactly [len_keep]
    patch indices per sample, all distinct and all below [L]: the first
    [len_keep] entries of the shuffled order, where [len_keep] is the
    binary32 product of [L] and [1 - mask_ratio] truncated toward zero
    (and lies in [0, L]).  For the default configuration [len_keep] is
    [floor(23 * 0.25) = 5], and for the mask ratios 0, 1/4, 1/2, 3/4 and
    every length up to 4096 it is [floor(L * (1 - r))]. *)
Theorem masking_keeps_len_keep_indices
  (M : Swin_MAE) (patches : sample) (noise : list Q) (k : Z) :
  length noise = length patches ->
  len_keep M (length patches) = Ok k ->
  (0 <= k <= Z.of_nat (length patches))%Z ->
  Float.len_keep (length patches) (mask_ratio M) = Some k
  /\ ids_keep k noise = firstn (Z.to_nat k) (ids_shuffle noise)
  /\ length (ids_keep k noise) = Z.to_nat k
  /\ NoDup (ids_keep k noise)
  /\ Forall (fun i => i < length patches) (ids_keep k noise)
  /\ Float.len_keep 23 (Float.decimal 3 4) = Some (Qfloor (23 * (1 - (3 # 4))))
  /\ Qfloor (23 * (1 - (3 # 4))) = 5%Z
  /\ (forall (L : nat) (n : Z),
        L <= 4096 -> In n [0; 1; 2; 3]%Z ->
        Float.len_keep L (Float.decimal n 4)
        = Some (Qfloor (inject_Z (Z.of_nat L) * (1 - (n # 4))))).
Proof.
  intros Hn Hk Hr.
  assert (Hs : ids_keep k noise = firstn (Z.to_nat k) (ids_shuffle noise)).
  { unfold ids_keep, slice_to. destruct (Z.leb_spec 0 k); [reflexivity | lia]. }
  split.
  { unfold len_keep in Hk. destruct (Float.len_keep _ _); congruence. }
  split; [exact Hs|]. split; [apply ids_keep_length; lia|]. split.
  { rewrite Hs. apply NoDup_firstn, argsort_NoDup. }
  split; [rewrite <- Hn; apply ids_keep_bound|].
  split; [vm_compute; reflexivity|].
  split; [vm_compute; reflexivity|].
  apply keep_length_exact_for_quarters.
Qed.

Lemma masking_keeps_len_keep_indices_witness :
  Float.len_keep 23 (Float.decimal 3 4) = Some 5%Z
  /\ ids_keep 5 Demo.noise_down = firstn 5 (ids_shuffle Demo.noise_down)
  /\ length (ids_keep 5 Demo.noise_down) = 5
  /\ NoDup (ids_keep 5 Demo.noise_down)
  /\ Forall (fun i => i < 23) (ids_keep 5 Demo.noise_down)
  /\ Float.len_keep 23 (Float.decimal 3 4) = Some (Qfloor (23 * (1 - (3 # 4))))
  /\ Qfloor (23 * (1 - (3 # 4))) = 5%Z
  /\ (forall (L : nat) (n : Z),
        L <= 4096 -> In n [0; 1; 2; 3]%Z ->
        Float.len_keep L (Float.decimal n 4)
        = Some (Qfloor (inject_Z (Z.of_nat L) * (1 - (n # 4))))).
Proof.
  apply (@masking_keeps_len_keep_indices Demo.model
           (map (Dense_call (patch_embed Demo.model)) Demo.x) Demo.noise_down 5%Z).
  - reflexivity.
  - vm_compute. reflexivity.
  - simpl. lia.
Defined.

(** * Further properties of the masking stage *)

Lemma StronglySorted_nth_error {A : Type} (R : A -> A -> Prop) (l : list A) :
  StronglySorted R l ->
  forall a b x y, a < b -> nth_error l a = Some x -> nth_error l b = Some y -> R x y.
Proof.
  induction 1 as [|h l Hs IH Hh]; intros a b x y Hab Ha Hb.
  - destruct a; discriminate.
  - destruct b as [|b]; [lia|]. simpl in Hb. destruct a as [|a]; simpl in Ha.
    + injection Ha as <-. rewrite Forall_forall in Hh. apply Hh.
      eapply nth_error_In; eassumption.
    + apply (IH a b); auto. lia.
Qed.

Lemma Qle_bool_total (a b : Q) : Qle_bool a b = true \/ Qle_bool b a = true.
Proof.
  destruct (Qlt_le_dec a b) as [H|H].
  - left. apply Qle_bool_iff. now apply Qlt_le_weak.
  - right. now apply Qle_bool_iff.
Qed.

(** X2.  [ids_shuffle] lists the patch indices by ascending noise: of
    two positions of the shuffled order the earlier one points to the
    smaller (or equal) draw.  The kept patches, a prefix of that order,
    are therefore those with the smallest draws. *)
Theorem ids_shuffle_ascending_noise (noise : list Q) (a b i j : nat) (qi qj : Q) :
  a <= b ->
  nth_error (ids_shuffle noise) a = Some i ->
  nth_error (ids_shuffle noise) b = Some j ->
  nth_error noise i = Some qi ->
  nth_error noise j = Some qj ->
  (qi <= qj)%Q.
Proof.
  intros Hab Ha Hb Hi Hj.
  destruct (Nat.eq_dec a b) as [->|Hne].
  { rewrite Ha in Hb. injection Hb as <-. rewrite Hi in Hj. injection Hj as <-.
    apply Qle_refl. }
  unfold ids_shuffle, argsort in Ha, Hb.
  set (s := sort_pairs Qle_bool (combine (seq 0 (length noise)) noise)) in *.
  rewrite nth_error_map in Ha, Hb.
  destruct (nth_error s a) as [[i' q1]|] eqn:Ea; [|discriminate].
  destruct (nth_error s b) as [[j' q2]|] eqn:Eb; [|discriminate].
  simpl in Ha, Hb. injection Ha as ->. injection Hb as ->.
  assert (Hperm : Permutation s (combine (seq 0 (length noise)) noise))
    by apply sort_pairs_perm.
  assert (H1 : nth_error noise i = Some q1).
  { apply nth_error_In in Ea. apply (Permutation_in _ Hperm) in Ea.
    apply in_combine_seq in Ea. rewrite Nat.sub_0_r in Ea. tauto. }
  assert (H2 : nth_error noise j = Some q2).
  { apply nth_error_In in Eb. apply (Permutation_in _ Hperm) in Eb.
    apply in_combine_seq in Eb. rewrite Nat.sub_0_r in Eb. tauto. }
  rewrite Hi in H1. injection H1 as <-. rewrite Hj in H2. injection H2 as <-.
  assert (Hs : StronglySorted (key_le Qle_bool) s).
  { apply Sorted_StronglySorted.
    - intros x y z Hxy Hyz. unfold key_le in *.
      apply Qle_bool_iff. apply Qle_bool_iff in Hxy, Hyz. eapply Qle_trans; eassumption.
    - apply sort_pairs_sorted. apply Qle_bool_total. }
  assert (Hk : key_le Qle_bool (i, qi) (j, qj)).
  { apply (StronglySorted_nth_error Hs) with (a := a) (b := b); auto. lia. }
  now apply Qle_bool_iff in Hk.
Qed.

Lemma ids_shuffle_ascending_noise_witness :
  ids_shuffle [3; - (1); 2]%Q = [1; 2; 0] /\ ((- (1))%Q <= 3)%Q.
Proof.
  split; [reflexivity|].
  apply (@ids_shuffle_ascending_noise [3; - (1); 2]%Q 0 2 1 0); try reflexivity. lia.
Defined.

(** X3.  The slice [ids_shuffle[:, :len_keep]] follows Python's rules
    for any keep length: a keep length above [L] keeps all [L] indices,
    and a negative one (a mask ratio above one) does not keep nothing
    but drops that many indices from the end. *)
Theorem ids_keep_count_unchecked (k : Z) (noise : list Q) :
  length (ids_keep k noise) <= length noise
  /\ ((Z.of_nat (length noise) <= k)%Z -> ids_keep k noise = ids_shuffle noise)
  /\ ((k < 0)%Z ->
      length (ids_keep k noise) = length noise - Z.to_nat (- k)
      /\ ids_keep k noise
         = firstn (length noise - Z.to_nat (- k)) (ids_shuffle noise)).
Proof.
  pose proof (ids_shuffle_length noise) as HL.
  unfold ids_keep, slice_to. repeat split.
  - destruct (0 <=? k)%Z; rewrite length_firstn, HL; lia.
  - intros H. destruct (Z.leb_spec 0 k); [|lia].
    apply firstn_all2. rewrite HL. lia.
  - destruct (Z.leb_spec 0 k); [lia|]. rewrite length_firstn, HL. lia.
  - destruct (Z.leb_spec 0 k); [lia|]. now rewrite HL.
Qed.

(** With [mask_ratio = 1.25] and 23 patches the keep length is -5 and
    eighteen indices are kept. *)
Lemma negative_keep_length_example :
  Float.len_keep 23 (Float.decimal 5 4) = Some (-5)%Z
  /\ length (ids_keep (-5) Demo.noise_up) = 18.
Proof. split; vm_compute; reflexivity. Qed.

(** * Shapes through the blocks and the decoder *)

(** X5.  A stack of Swin blocks whose attention and MLP keep shapes
    returns, for every input, a sequence with as many rows as the input
    and rows of the same widths: the residual sums never meet a shape
    they cannot add. *)
Theorem swin_blocks_keep_shape (bs : list SwinBlock) (x : sample) (D : nat) :
  Forall shape_preserving bs ->
  rows_width D x ->
  exists z, blocks_call bs x = Ok z
            /\ length z = length x
            /\ rows_width D z.
Proof.
  intros Hb Hx. destruct (blocks_call_shape x Hb) as [z [Hz Hs]].
  exists z. split; [exact Hz|]. split.
  - now apply same_shape_length.
  - eapply same_shape_width; eassumption.
Qed.

Lemma swin_blocks_keep_shape_witness :
  exists z, blocks_call (repeat Demo.zero_block 4) [[1; 2]; [3; 4]; [5; 6]]%Q = Ok z
            /\ length z = 3
            /\ rows_width 2 z.
Proof.
  apply (@swin_blocks_keep_shape (repeat Demo.zero_block 4) [[1; 2]; [3; 4]; [5; 6]]%Q 2).
  - simpl. repeat (constructor; [apply zero_block_shape_preserving|]). constructor.
  - repeat constructor.
Defined.

Lemma map_Dense_call_width (d : Dense) (F : nat) (x : sample) :
  Dense_units d F -> rows_width F (map (Dense_call d) x).
Proof.
  intros Hd. apply Forall_forall. intros r Hr.
  apply in_map_iff in Hr as [v [<- _]]. now apply Dense_call_length.
Qed.

Lemma decoder_rows (M : Swin_MAE) (D F : nat) (z : sample) :
  well_formed M D -> Dense_units (reconstruct M) F ->
  rows_width D z -> length z <= fst (input_shape M) ->
  exists out, decoder M z = Ok out /\ length out = length z /\ rows_width F out.
Proof.
  intros WF HF Hz Hl.
  destruct (@sample_op_same_shape Qplus z (firstn (length z) (pos_embed M)))
    as [d1 [Hd1 S1]].
  { apply rows_width_same_shape with (D := D); auto.
    - rewrite length_firstn, (wf_pos_rows WF). lia.
    - apply firstn_width, WF. }
  destruct (@blocks_call_shape (decoder_blocks M) d1 (wf_decoder WF)) as [d2 [Hd2 S2]].
  exists (map (Dense_call (reconstruct M)) d2). split.
  - unfold decoder, decoder_input. rewrite Hd1. simpl. rewrite Hd2. reflexivity.
  - split.
    + rewrite length_map, (same_shape_length S2), (same_shape_length S1). reflexivity.
    + now apply map_Dense_call_width.
Qed.

(** X6.  The decoder returns, for every sequence of at most
    [input_shape[0]] rows of the model width, one reconstructed row per
    input row, each of [input_shape[-1]] entries (the units of the last
    Dense layer): the reconstruction covers the rows it was given and no
    others. *)
Theorem decoder_output_shape (M : Swin_MAE) (D F : nat) (z : sample) :
  well_formed M D -> Dense_units (reconstruct M) F ->
  rows_width D z -> length z <= fst (input_shape M) ->
  exists out, decoder M z = Ok out /\ length out = length z /\ rows_width F out.
Proof. apply decoder_rows. Qed.

(** X7.  The decoder accepts sequences of any length by its input
    layer, but it adds the positional table cut to the sequence length:
    a sequence with more rows than the table has is refused. *)
Theorem decoder_refuses_long_sequences (M : Swin_MAE) (z : sample) :
  1 < length (pos_embed M) ->
  length (pos_embed M) < length z ->
  decoder M z = Raise InvalidArgumentError.
Proof.
  intros H1 H2. unfold decoder, decoder_input, sample_op, bzip.
  rewrite firstn_all2 by lia.
  destruct (Nat.eqb_spec (length z) (length (pos_embed M))) as [E|_]; [lia|].
  destruct z as [|r0 [|r1 z]]; simpl in H2; try lia.
  destruct (pos_embed M) as [|p0 [|p1 ps]]; simpl in H1; try lia.
  reflexivity.
Qed.

Lemma Demo_reconstruct_units : Dense_units (reconstruct Demo.model) 4.
Proof.
  split; [reflexivity|]. apply Forall_forall. intros r Hr.
  apply repeat_spec in Hr. now subst.
Qed.

Lemma decoder_output_shape_witness :
  exists out, decoder Demo.model (repeat (Demo.zeros 64) 5) = Ok out
              /\ length out = length (repeat (Demo.zeros 64) 5)
              /\ rows_width 4 out.
Proof.
  apply (@decoder_output_shape Demo.model 64 4 (repeat (Demo.zeros 64) 5)).
  - apply Demo_well_formed.
  - apply Demo_reconstruct_units.
  - repeat constructor.
  - simpl. lia.
Defined.

Lemma decoder_refuses_long_sequences_witness :
  decoder Demo.model (repeat (Demo.zeros 64) 24) = Raise InvalidArgumentError.
Proof.
  apply (@decoder_refuses_long_sequences Demo.model (repeat (Demo.zeros 64) 24));
    simpl; lia.
Defined.

(** * Broadcasting *)

Lemma bzip_mismatch {A B C : Type} (f : A -> B -> result C) (xs : list A) (ys : list B) :
  length xs <> length ys -> length xs <> 1 -> length ys <> 1 ->
  bzip f xs ys = Raise InvalidArgumentError.
Proof.
  intros H H1 H2. unfold bzip.
  destruct (Nat.eqb_spec (length xs) (length ys)) as [E|_]; [contradiction|].
  destruct xs as [|x [|x' xs]]; destruct ys as [|y [|y' ys]]; simpl in *;
    try reflexivity; lia.
Qed.

(** * The gradient of the fine-tune mode *)

Lemma tadd_connected_l (a b : traced) : connected a -> connected (tadd a b).
Proof. intros [g Hg]. unfold connected, tadd, join. simpl. rewrite Hg. eauto. Qed.

Lemma tsum_rows_connected_at (W c : nat) (rows : list tvec) :
  Forall (fun r => length r = W) rows ->
  Exists (connected_at c) rows ->
  connected_at c (tsum_rows W rows).
Proof.
  intros Hw He. induction Hw as [|r rows Hr Hw IH]; [inversion He|].
  simpl.
  assert (Hc : c < W).
  { assert (Hall : Forall (fun r => length r = W) (r :: rows)) by (now constructor).
    apply Exists_exists in He as [r' [Hin [t [Ht _]]]].
    rewrite Forall_forall in Hall. rewrite <- (Hall r' Hin).
    apply nth_error_Some. congruence. }
  destruct (nth_error r c) as [a|] eqn:Ea; [|apply nth_error_None in Ea; lia].
  destruct (nth_error (tsum_rows W rows) c) as [b|] eqn:Eb.
  2:{ apply nth_error_None in Eb. rewrite (tsum_rows_length Hw) in Eb. lia. }
  exists (tadd a b). split; [now apply nth_error_map2|].
  inversion He as [? ? [t [Ht Hct]]|? ? Hrest]; subst.
  - rewrite Ea in Ht. injection Ht as <-. now apply tadd_connected_l.
  - destruct (IH Hrest) as [t [Ht Hct]]. rewrite Eb in Ht. injection Ht as <-.
    now apply tadd_connected_r.
Qed.

Lemma tmean_rows_connected_at (W c : nat) (s : list tvec) :
  Forall (fun r => length r = W) s ->
  Exists (connected_at c) s ->
  length (tmean_rows s) = W /\ connected_at c (tmean_rows s).
Proof.
  intros Hw He. unfold tmean_rows.
  assert (Hhd : length (hd [] s) = W).
  { destruct s as [|r s]; [inversion He|]. now inversion Hw. }
  rewrite Hhd. split.
  - now rewrite length_map, tsum_rows_length.
  - destruct (@tsum_rows_connected_at W c s Hw He) as [t [Ht Hc]].
    exists (tmul (const (1 / Qlen s)) t). split.
    + now rewrite nth_error_map, Ht.
    + now apply tmul_connected_r.
Qed.

Lemma tDense_call_input_connected (w : variable) (d : Dense) (C c : nat) (x : tvec) :
  Dense_units d C -> 0 < C -> length x = length (kernel d) ->
  connected_at c x ->
  Exists connected (tDense_call w d x).
Proof.
  intros [Hb Hk] HC Hx [t [Ht Hc]]. unfold tDense_call.
  set (rows := map (fun p : traced * list traced => map (tmul (fst p)) (snd p))
                   (combine x (traced_kernel w d))).
  assert (Hkw : Forall (fun r => length r = C) (traced_kernel w d))
    by (now apply traced_kernel_width).
  assert (Hkl : length (traced_kernel w d) = length (kernel d)).
  { unfold traced_kernel, number.
    now rewrite length_map, length_combine, length_seq, Nat.min_id. }
  assert (Hrw : Forall (fun r => length r = C) rows).
  { apply Forall_forall. intros r Hr.
    apply in_map_iff in Hr as [[a row] [<- Hin]]. simpl. rewrite length_map.
    apply in_combine_r in Hin. rewrite Forall_forall in Hkw. now apply Hkw. }
  assert (Hrc : Exists (connected_at 0) rows).
  { assert (Hcl : c < length (traced_kernel w d)).
    { rewrite Hkl, <- Hx. apply nth_error_Some. congruence. }
    destruct (nth_error (traced_kernel w d) c) as [krow|] eqn:Ek;
      [|apply nth_error_None in Ek; lia].
    assert (Hkrow : length krow = C).
    { rewrite Forall_forall in Hkw. apply Hkw. eapply nth_error_In; eassumption. }
    destruct krow as [|k0 krow]; [simpl in Hkrow; lia|].
    apply Exists_exists. exists (map (tmul t) (k0 :: krow)). split.
    - unfold rows.
      assert (Hn : nth_error (combine x (traced_kernel w d)) c = Some (t, k0 :: krow)).
      { clear -Ht Ek. revert c Ht Ek. generalize (traced_kernel w d).
        induction x as [|a x IH]; intros [|r l] [|c] Ht Ek; simpl in *; try discriminate.
        - now injection Ht as <-; injection Ek as <-.
        - now apply IH. }
      apply nth_error_In with (n := c).
      exact (map_nth_error
               (fun p : traced * list traced => map (tmul (fst p)) (snd p)) c _ Hn).
    - exists (tmul t k0). split; [reflexivity | now apply tmul_connected_l]. }
  destruct (@tsum_rows_connected_at C 0 rows Hrw Hrc) as [a [Ha Hac]].
  rewrite Hb.
  assert (Hbl : length (traced_bias w d) = C).
  { unfold traced_bias, number.
    now rewrite length_map, length_combine, length_seq, Nat.min_id. }
  destruct (nth_error (traced_bias w d) 0) as [b|] eqn:Eb;
    [|apply nth_error_None in Eb; lia].
  apply Exists_exists. exists (tadd a b). split.
  - apply nth_error_In with (n := 0). now apply nth_error_map2.
  - now apply tadd_connected_l.
Qed.

Section FineTune.

Variables exp ln : Q -> Q.
Variable update : Q -> Q -> Q.

Lemma sample_loss_fine_tune_connected (w : variable) (head : Dense) (C : nat)
(z : list tvec) (y : vec) :
Dense_units head C -> 0 < C -> y <> [] -> reaches head z ->
exists l, sample_loss exp ln w (_add_classification_head head true) z y = Ok l
          /\ connected l.
Proof.
intros Hd HC Hy [Hw [c Hc]].
destruct (@tmean_rows_connected_at _ c z Hw Hc) as [Hl Hm].
eexists. split; [reflexivity|].
assert (He : Exists connected (tDense_call w head (tmean_rows z)))
  by (eapply tDense_call_input_connected; eauto).
apply categorical_crossentropy_connected; [exact Hy | |].
- unfold softmax. intros E. apply (f_equal (@length _)) in E.
  rewrite !length_map in E. simpl in E.
  apply Exists_exists in He as [t [Ht _]].
  destruct (tDense_call w head (tmean_rows z)); [inversion Ht | discriminate].
- now apply softmax_connected.
Qed.

Lemma gradient_fine_tune_some (w : variable) (head : Dense) (C : nat)
(zs : list (list tvec)) (ys : list vec) :
Dense_units head C -> 0 < C -> zs <> [] ->
Forall2 (fun z y => reaches head z /\ y <> []) zs ys ->
exists g, gradient exp ln w (_add_classification_head head true) zs ys = Ok (Some g).
Proof.
intros Hd HC Hz H. unfold gradient, batch_loss.
destruct (@mapM2_total _ _ _
            (sample_loss exp ln w (_add_classification_head head true))
            connected zs ys) as [ls [Hls [Hl Hc]]].
- clear Hz. induction H as [|z y zs ys [Hr Hy] _ IH]; constructor; auto.
  now apply (@sample_loss_fine_tune_connected w head C).
- rewrite Hls.
  assert (Hg : connected (tmul (const (1 / Qlen ls)) (tsum ls))).
  { apply tmul_connected_r, tsum_connected.
    destruct ls as [|l ls]; [destruct zs; [contradiction | discriminate]|].
    apply Exists_cons_hd. now inversion Hc. }
  destruct Hg as [g Hg]. exists g. simpl. now rewrite <- Hg.
Qed.

End FineTune.

Lemma train_fine_tune (M : Swin_MAE) (head : Dense) :
  train M "fine-tune" head
  = Ok {| model_after :=
            set_encoder_trainable
              (set_classifier M (_add_classification_head head true)) true;
          checkpoint := path_join (model_dir M) "finetune_model.h5" |}.
Proof. reflexivity. Qed.

(** X12.  After [train(..., mode='fine-tune')] the head has no Lambda
    and the encoder is trainable: when the encoder output of every
    sample depends on an encoder weight, the loss carries a gradient to
    that weight and the training step hands every such weight to the
    optimizer's update rule (the counterpart of the frozen encoder of
    the linear mode). *)
Theorem fine_tune_updates_encoder_weights
  (exp ln : Q -> Q) (update : Q -> Q -> Q)
  (M : Swin_MAE) (head : Dense) (t : trained) (C : nat)
  (encoder_out : nat -> list (list tvec)) (ys : list vec) (theta : list Q) :
  train M "fine-tune" head = Ok t ->
  Dense_units head C -> 0 < C ->
  (forall i, i < length theta ->
             encoder_out i <> []
             /\ Forall2 (fun z y => reaches head z /\ y <> []) (encoder_out i) ys) ->
  exists gs,
    length gs = length theta
    /\ train_step_encoder exp ln update (encoder_trainable (model_after t))
         (classifier (model_after t)) encoder_out ys theta
       = Ok (zip_with update theta gs).
Proof.
  intros Ht Hd HC Hout.
  rewrite train_fine_tune in Ht. injection Ht as <-.
  cbn [model_after encoder_trainable classifier set_encoder_trainable set_classifier].
  unfold train_step_encoder, number.
  assert (H : forall start,
             (forall i, start <= i < start + length theta ->
                        encoder_out i <> []
                        /\ Forall2 (fun z y => reaches head z /\ y <> [])
                                   (encoder_out i) ys) ->
             exists gs,
               length gs = length theta
               /\ mapM (fun p : nat * Q =>
                          g <- gradient exp ln (EncoderVar (fst p))
                                 (_add_classification_head head true)
                                 (encoder_out (fst p)) ys ;;
                          Ok (apply_gradient update g (snd p)))
                       (combine (seq start (length theta)) theta)
                  = Ok (zip_with update theta gs)).
  { clear Hout. induction theta as [|v theta IH]; intros start Hs.
    - exists []. split; reflexivity.
    - destruct (Hs start ltac:(simpl; lia)) as [Hne Hr].
      destruct (@gradient_fine_tune_some exp ln (EncoderVar start) head C
                  (encoder_out start) ys Hd HC Hne Hr) as [g Hg].
      destruct (IH (S start)) as [gs [Hl Hm]].
      { intros i Hi. apply Hs. simpl. lia. }
      exists (g :: gs). split; [simpl; now rewrite Hl|].
      simpl. rewrite Hg. simpl. rewrite Hm. reflexivity. }
  apply (H 0). intros i Hi. apply Hout. lia.
Qed.

Lemma fine_tune_updates_encoder_weights_witness :
  exists gs,
    length gs = 3
    /\ train_step_encoder (fun q : Q => q) (fun q : Q => q) (fun v g : Q => (v - g)%Q)
         true (_add_classification_head Demo.head true)
         (fun _ : nat => [map (map watched) (repeat (Demo.unit_row 64 0 1%Q) 5)])
         [[1; 0; 0; 0; 0; 0; 0]%Q] [1; 2; 3]%Q
       = Ok (zip_with (fun v g : Q => (v - g)%Q) [1; 2; 3]%Q gs).
Proof.
  apply (@fine_tune_updates_encoder_weights (fun q : Q => q) (fun q : Q => q)
           (fun v g : Q => (v - g)%Q) Demo.model Demo.head
           {| model_after :=
                set_encoder_trainable
                  (set_classifier Demo.model (_add_classification_head Demo.head true))
                  true;
              checkpoint := "saved_models/swin_mae/finetune_model.h5" |} 7
           (fun _ : nat => [map (map watched) (repeat (Demo.unit_row 64 0 1%Q) 5)])
           [[1; 0; 0; 0; 0; 0; 0]%Q] [1; 2; 3]%Q).
  - reflexivity.
  - split; [reflexivity|]. vm_compute. repeat (constructor; [reflexivity|]). constructor.
  - lia.
  - intros i _. split; [discriminate|]. constructor; [|constructor].
    split; [|discriminate]. split.
    + repeat constructor.
    + exists 0. apply Exists_cons_hd. eexists. split; [reflexivity|].
      unfold connected. simpl. eauto.
Defined.

(** * Further properties of the ViT patch stage *)

Lemma chunks_fuel_exact {A : Type} (w n : nat) :
  0 < w ->
  forall (fuel : nat) (l : list A),
    length l <= fuel -> length l = n * w ->
    length (ViT.chunks_fuel fuel w l) = n
    /\ Forall (fun c => length c = w) (ViT.chunks_fuel fuel w l)
    /\ concat (ViT.chunks_fuel fuel w l) = l.
Proof.
  intros Hw. induction n as [|n IH]; intros fuel l Hf Hl.
  - assert (l = []) as -> by (destruct l; [reflexivity | discriminate]).
    destruct fuel; simpl; auto.
  - destruct fuel as [|fuel].
    + simpl in Hl. lia.
    + destruct l as [|a l]; [simpl in Hl; lia|].
      cbn [ViT.chunks_fuel].
      destruct (IH fuel (skipn w (a :: l))) as [H1 [H2 H3]].
      * rewrite length_skipn. lia.
      * rewrite length_skipn, Hl. lia.
      * split; [cbn [length]; now rewrite H1|]. split.
        -- constructor; [|exact H2]. rewrite length_firstn, Hl. lia.
        -- cbn [concat]. rewrite H3. apply firstn_skipn.
Qed.

Lemma chunks_exact {A : Type} (w n : nat) (l : list A) :
  0 < w -> length l = n * w ->
  length (ViT.chunks w l) = n
  /\ Forall (fun c => length c = w) (ViT.chunks w l)
  /\ concat (ViT.chunks w l) = l.
Proof. intros Hw Hl. apply chunks_fuel_exact; auto. Qed.

Lemma app_same_length_inv {A : Type} (a a' b b' : list A) :
  length a = length a' -> a ++ b = a' ++ b' -> a = a' /\ b = b'.
Proof.
  revert a'; induction a as [|x a IH]; intros [|x' a'] Hl H; simpl in *;
    try discriminate; [auto|].
  injection H as -> H. destruct (IH a' ltac:(lia) H) as [-> ->]. auto.
Qed.

Lemma chunking_unique {A : Type} (w : nat) (cs cs' : list (list A)) :
  0 < w ->
  Forall (fun c => length c = w) cs -> Forall (fun c => length c = w) cs' ->
  concat cs = concat cs' -> cs = cs'.
Proof.
  intros Hw Hc; revert cs'; induction Hc as [|c cs Hcl _ IH]; intros cs' Hc' H.
  - destruct Hc' as [|c' cs' Hl _]; [reflexivity|].
    simpl in H. destruct c'; [simpl in Hl; lia | discriminate].
  - destruct Hc' as [|c' cs' Hl Hc'].
    + simpl in H. destruct c; [simpl in Hcl; lia | discriminate].
    + simpl in H. destruct (app_same_length_inv c c' _ _ ltac:(congruence) H) as [-> Hr].
      f_equal. now apply IH.
Qed.

Lemma concat_length_uniform {A : Type} (w : nat) (cs : list (list A)) :
  Forall (fun c => length c = w) cs -> length (concat cs) = length cs * w.
Proof.
  induction 1 as [|c cs Hc _ IH]; simpl; [reflexivity|].
  rewrite length_app, IH, Hc. reflexivity.
Qed.

Lemma has_shape_sample_length (L F : nat) (x : batch) :
  ViT.has_shape (L, F) x -> Forall (fun s : sample => length (concat s) = L * F) x.
Proof.
  intros H. unfold ViT.has_shape in H. rewrite Forall_forall in *.
  intros s Hs. destruct (H s Hs) as [Hl Hw]. simpl in Hl, Hw.
  rewrite (concat_length_uniform Hw). f_equal. exact Hl.
Qed.

(** The patches of a batch: every sample cut on its own. *)
Lemma Patches_call_ok (p L F n : nat) (x : batch) :
  ViT.has_shape (L, F) x -> x <> [] -> 0 < p * F -> L * F = n * (p * F) ->
  ViT.Patches_call p F x = Ok (map (fun s => ViT.chunks (p * F) (concat s)) x)
  /\ Forall (fun s : sample =>
               length (ViT.chunks (p * F) (concat s)) = n
               /\ rows_width (p * F) (ViT.chunks (p * F) (concat s))
               /\ concat (ViT.chunks (p * F) (concat s)) = concat s) x.
Proof.
  intros Hs Hne Hw Hn.
  set (W := p * F) in *.
  pose proof (has_shape_sample_length Hs) as Hlen.
  assert (Hall : Forall (fun s : sample =>
                           length (ViT.chunks W (concat s)) = n
                           /\ rows_width W (ViT.chunks W (concat s))
                           /\ concat (ViT.chunks W (concat s)) = concat s) x).
  { rewrite Forall_forall in *. intros s Hin.
    apply chunks_exact; [exact Hw|]. rewrite (Hlen s Hin). exact Hn. }
  split; [|exact Hall].
  set (P := map (fun s => ViT.chunks W (concat s)) x).
  assert (HP1 : Forall (fun c : sample => length c = n) P).
  { apply Forall_forall. intros c Hc. apply in_map_iff in Hc as [s [<- Hin]].
    rewrite Forall_forall in Hall. now apply Hall. }
  assert (HP2 : Forall (fun r : vec => length r = W) (concat P)).
  { apply Forall_forall. intros r Hr. apply in_concat in Hr as [c [Hc Hr]].
    apply in_map_iff in Hc as [s [<- Hin]].
    rewrite Forall_forall in Hall. destruct (Hall s Hin) as [_ [Hrw _]].
    unfold rows_width in Hrw. rewrite Forall_forall in Hrw. now apply Hrw. }
  assert (HP3 : concat (concat P) = concat (concat x)).
  { unfold P. clear -Hall. induction Hall as [|s x [_ [_ Hc]] _ IH]; [reflexivity|].
    simpl. rewrite !concat_app, Hc, IH. reflexivity. }
  assert (Htotal : length (concat (concat x)) = length x * n * W).
  { rewrite (has_shape_flat_length Hs), Hn. lia. }
  unfold ViT.Patches_call, ViT.reshape. fold W.
  assert (HB : 0 < length x) by (destruct x; [contradiction | simpl; lia]).
  destruct (Nat.eqb_spec (length x) 0) as [E|_]; [lia|].
  destruct (Nat.eqb_spec W 0) as [E|_]; [lia|].
  rewrite Htotal.
  replace (length x * n * W) with (n * (length x * W)) by lia.
  rewrite Nat.Div0.mod_mul, Nat.div_mul by lia. simpl negb. cbv iota.
  destruct (Nat.eqb_spec n 0) as [->|Hn0].
  - f_equal. unfold P. clear -Hall.
    induction Hall as [|s x [Hl _] _ IH]; [reflexivity|].
    simpl. rewrite <- IH. f_equal.
    destruct (ViT.chunks W (concat s)); [reflexivity | discriminate].
  - f_equal.
    assert (Hrows : ViT.chunks W (concat (concat x)) = concat P).
    { apply chunking_unique with (w := W); auto.
      - apply chunks_exact with (n := length x * n); [exact Hw | lia].
      - rewrite HP3. apply chunks_exact with (n := length x * n); [exact Hw | lia]. }
    assert (HcP : length (concat P) = length x * n).
    { etransitivity; [exact (concat_length_uniform HP1)|].
      f_equal. unfold P. apply length_map. }
    rewrite Hrows. apply chunking_unique with (w := n); [lia | | exact HP1 |].
    + apply chunks_exact with (n := length x); [lia | exact HcP].
    + apply chunks_exact with (n := length x); [lia | exact HcP].
Qed.

(** The reshape refuses a batch whose samples do not fill whole
    patches. *)
Lemma Patches_call_refuses (p L F : nat) (x : batch) :
  ViT.has_shape (L, F) x -> x <> [] -> 0 < p * F -> (L * F) mod (p * F) <> 0 ->
  ViT.Patches_call p F x = Raise InvalidArgumentError.
Proof.
  intros Hs Hne Hw Hm. unfold ViT.Patches_call, ViT.reshape.
  rewrite (has_shape_flat_length Hs).
  assert (HB : 0 < length x) by (destruct x; [contradiction | simpl; lia]).
  destruct (Nat.eqb_spec (length x) 0) as [E|_]; [lia|].
  destruct (Nat.eqb_spec (p * F) 0) as [E|_]; [lia|].
  rewrite Nat.Div0.mul_mod_distr_l.
  destruct (Nat.eqb_spec (length x * ((L * F) mod (p * F))) 0) as [E|_]; [nia|].
  reflexivity.
Qed.

(** X14.  When the entries of a sample fill whole patches, [Patches]
    returns for every sample its own entries, in their order, cut into
    [n] patches of [patch_size * features] entries: no entry is lost,
    repeated or moved to another sample. *)
Theorem Patches_call_cuts_each_sample (p L F n : nat) (x : batch) :
  ViT.has_shape (L, F) x -> x <> [] -> 0 < p * F -> L * F = n * (p * F) ->
  exists patches,
    ViT.Patches_call p F x = Ok patches
    /\ length patches = length x
    /\ Forall2 (fun (s ps : sample) =>
                  length ps = n /\ rows_width (p * F) ps /\ concat ps = concat s)
               x patches.
Proof.
  intros Hs Hne Hw Hn.
  destruct (@Patches_call_ok p L F n x Hs Hne Hw Hn) as [Hp Hall].
  eexists. split; [exact Hp|]. split; [apply length_map|].
  clear -Hall. induction Hall as [|s x Ha _ IH]; simpl; constructor; auto.
Qed.

Lemma Patches_call_cuts_each_sample_witness :
  exists patches,
    ViT.Patches_call 4 1 (Demo.ones 8 1) = Ok patches
    /\ length patches = length (Demo.ones 8 1)
    /\ Forall2 (fun (s ps : sample) =>
                  length ps = 2 /\ rows_width (4 * 1) ps /\ concat ps = concat s)
               (Demo.ones 8 1) patches.
Proof.
  apply (@Patches_call_cuts_each_sample 4 8 1 2 (Demo.ones 8 1)).
  - repeat constructor.
  - discriminate.
  - simpl. lia.
  - reflexivity.
Defined.

Lemma gather_seq_all {A : Type} (l : list A) : gather l (seq 0 (length l)) = Ok l.
Proof.
  apply gather_Forall2. apply Forall2_nth_error_intro; [apply length_seq|].
  intros i a b Ha Hb.
  assert (Hi : i < length l) by (apply nth_error_Some; congruence).
  rewrite nth_error_seq in Ha. destruct (Nat.ltb_spec i (length l)); [|lia].
  injection Ha as <-. exact Hb.
Qed.

Lemma projected_rows (pe : ViT.PatchEncoder) (D : nat) (s : sample) :
  Dense_units (ViT.projection pe) D ->
  rows_width D (map (Dense_call (ViT.projection pe)) s).
Proof. apply map_Dense_call_width. Qed.

Lemma mapM_total {A B : Type} (f : A -> result B) (P : B -> Prop) (l : list A) :
  Forall (fun a => exists b, f a = Ok b /\ P b) l ->
  exists bs, mapM f l = Ok bs /\ length bs = length l /\ Forall P bs.
Proof.
  induction 1 as [|a l [b [Hb Pb]] _ [bs [Hbs [Hl HP]]]]; simpl.
  - exists []. auto.
  - exists (b :: bs). rewrite Hb, Hbs. simpl. auto.
Qed.

(** X16.  With one feature and a length of [4 * m] time steps the patch
    and embedding stage returns, for every sample, [num_patches = m]
    vectors of the model width: the reshape and the positional table
    agree. *)
Theorem patch_stage_single_feature (m D : nat) (pe : ViT.PatchEncoder) (x : batch) :
  0 < m ->
  ViT.has_shape (4 * m, 1) x -> x <> [] ->
  patch_encoder_built pe (4 * m, 1) D ->
  ViT.build_num_patches (4 * m, 1) = m
  /\ exists out,
       ViT.patch_stage (4 * m, 1) pe x = Ok out
       /\ length out = length x
       /\ Forall (fun s : sample => length s = m /\ rows_width D s) out.
Proof.
  intros Hm Hs Hne [Hnp [Htl [Htw Hpr]]].
  assert (Hb : ViT.build_num_patches (4 * m, 1) = m).
  { unfold ViT.build_num_patches. cbn [fst snd].
    replace (4 * m) with (m * 4) by lia. rewrite Nat.div_mul by lia.
    change (1 / 1) with 1. lia. }
  split; [exact Hb|].
  destruct (@Patches_call_ok 4 (4 * m) 1 m x Hs Hne) as [Hp Hall]; [lia | lia |].
  unfold ViT.patch_stage. simpl snd. rewrite Hp. cbn [bind].
  unfold ViT.PatchEncoder_call, ViT.embedding_lookup.
  rewrite <- Htl, gather_seq_all. cbn [bind].
  destruct (@mapM_total _ _
              (fun s : sample =>
                 sample_op Qplus (map (Dense_call (ViT.projection pe)) s)
                           (ViT.position_embedding pe))
              (fun s : sample => length s = m /\ rows_width D s)
              (map (fun s : sample => ViT.chunks (4 * 1) (concat s)) x))
    as [out [Ho [Hol HoP]]].
  { apply Forall_forall. intros ps Hps. apply in_map_iff in Hps as [s [<- Hin]].
    rewrite Forall_forall in Hall. destruct (Hall s Hin) as [Hl _].
    destruct (@sample_op_same_shape Qplus
                (map (Dense_call (ViT.projection pe)) (ViT.chunks (4 * 1) (concat s)))
                (ViT.position_embedding pe)) as [z [Hz Sz]].
    - apply rows_width_same_shape with (D := D); auto.
      + rewrite length_map. transitivity m; [exact Hl | now rewrite Htl, Hnp, Hb].
      + now apply projected_rows.
    - exists z. split; [exact Hz|]. split.
      + rewrite (same_shape_length Sz), length_map. exact Hl.
      + eapply same_shape_width; [exact Sz | now apply projected_rows]. }
  exists out. split; [exact Ho|]. split; [|exact HoP].
  now rewrite Hol, length_map.
Qed.

Lemma patch_stage_single_feature_witness :
  ViT.build_num_patches (4 * 2, 1) = 2
  /\ exists out,
       ViT.patch_stage (4 * 2, 1)
         {| ViT.num_patches := 2;
            ViT.projection := {| kernel := repeat (Demo.zeros 64) 4;
                                 bias := Demo.zeros 64 |};
            ViT.position_embedding := repeat (Demo.zeros 64) 2 |}
         (Demo.ones 8 1) = Ok out
       /\ length out = length (Demo.ones 8 1)
       /\ Forall (fun s : sample => length s = 2 /\ rows_width 64 s) out.
Proof.
  apply (@patch_stage_single_feature 2 64).
  - lia.
  - repeat constructor.
  - discriminate.
  - repeat split; repeat constructor.
Defined.

(** X17.  With two or more features and eight or more time steps the
    patch and embedding stage raises for every batch of the configured
    shape: either the reshape fails (length not a multiple of four) or
    it returns [L / 4] patches against a positional table of
    [(L / 4) * features] rows.  The default shape (23, 4) is one such
    shape. *)
Theorem patch_stage_rejects_several_features
  (L F D : nat) (pe : ViT.PatchEncoder) (x : batch) :
  2 <= F -> 8 <= L ->
  ViT.has_shape (L, F) x -> x <> [] ->
  patch_encoder_built pe (L, F) D ->
  ViT.patch_stage (L, F) pe x = Raise InvalidArgumentError.
Proof.
  intros HF HL Hs Hne [Hnp [Htl [Htw Hpr]]].
  unfold ViT.patch_stage. simpl snd.
  destruct (Nat.eq_dec (L mod 4) 0) as [Hdiv|Hdiv].
  - apply Nat.Div0.div_exact in Hdiv.
    set (m := L / 4) in *.
    assert (Hm : 2 <= m) by lia.
    destruct (@Patches_call_ok 4 L F m x Hs Hne) as [Hp Hall]; [lia | nia |].
    rewrite Hp. cbn [bind].
    assert (Hb : ViT.build_num_patches (L, F) = m * F).
    { unfold ViT.build_num_patches. cbn [fst snd]. fold m.
      now rewrite Nat.div_1_r. }
    unfold ViT.PatchEncoder_call, ViT.embedding_lookup.
    rewrite <- Htl, gather_seq_all. cbn [bind].
    destruct x as [|s x]; [contradiction|]. cbn [map mapM].
    rewrite Forall_forall in Hall. destruct (Hall s (or_introl eq_refl)) as [Hl _].
    unfold sample_op at 1. rewrite bzip_mismatch; [reflexivity | | |].
    + rewrite length_map, Htl, Hnp, Hb. unfold vec, sample in *. rewrite Hl. nia.
    + rewrite length_map. unfold vec, sample in *. rewrite Hl. lia.
    + rewrite Htl, Hnp, Hb. nia.
  - rewrite (@Patches_call_refuses 4 L F x Hs Hne); [reflexivity | lia |].
    replace (4 * F) with (F * 4) by lia. replace (L * F) with (F * L) by lia.
    rewrite Nat.Div0.mul_mod_distr_l. nia.
Qed.

Lemma patch_stage_rejects_several_features_witness :
  ViT.patch_stage (23, 4) (Demo.patch_encoder 20) [Demo.x] = Raise InvalidArgumentError.
Proof.
  apply (@patch_stage_rejects_several_features 23 4 64 (Demo.patch_encoder 20) [Demo.x]).
  - lia.
  - lia.
  - repeat constructor.
  - discriminate.
  - repeat split; repeat constructor.
Defined.

(** * The label encoder in [train] and [evaluate] *)

Lemma insert_unique_in (l y : Z) (cs : list Z) :
  In l (ViT.insert_unique y cs) <-> l = y \/ In l cs.
Proof.
  induction cs as [|c cs IH]; simpl.
  - intuition.
  - destruct (Z.ltb_spec y c); [simpl; intuition|].
    destruct (Z.eqb_spec y c) as [->|Hne]; simpl.
    + intuition.
    + rewrite IH. intuition.
Qed.

Lemma fit_classes_in (l : Z) (y : list Z) :
  In l (fold_right ViT.insert_unique [] y) <-> In l y.
Proof.
  induction y as [|a y IH]; simpl; [tauto|].
  rewrite insert_unique_in, IH. intuition.
Qed.

Lemma insert_unique_sorted (y : Z) (cs : list Z) :
  StronglySorted Z.lt cs -> StronglySorted Z.lt (ViT.insert_unique y cs).
Proof.
  induction 1 as [|c cs Hs IH Hc]; simpl.
  - repeat constructor.
  - destruct (Z.ltb_spec y c).
    + constructor; [now constructor|]. constructor; [exact H|].
      rewrite Forall_forall in *. intros z Hz. specialize (Hc z Hz). lia.
    + destruct (Z.eqb_spec y c) as [->|Hne]; [now constructor|].
      constructor; [exact IH|]. rewrite Forall_forall in *. intros z Hz.
      apply insert_unique_in in Hz as [->|Hz]; [lia | now apply Hc].
Qed.

Lemma fit_classes_sorted (y : list Z) :
  StronglySorted Z.lt (fold_right ViT.insert_unique [] y).
Proof.
  induction y as [|a y IH]; simpl; [constructor | now apply insert_unique_sorted].
Qed.

Lemma index_of_nth (l : Z) (cs : list Z) (i : nat) :
  ViT.index_of l cs = Some i -> nth_error cs i = Some l.
Proof.
  revert i; induction cs as [|c cs IH]; intros i H; simpl in H; [discriminate|].
  destruct (Z.eqb_spec l c) as [->|Hne].
  - now injection H as <-.
  - destruct (ViT.index_of l cs) as [j|]; [|discriminate].
    injection H as <-. simpl. now apply IH.
Qed.

Lemma index_of_in (l : Z) (cs : list Z) :
  In l cs <-> exists i, ViT.index_of l cs = Some i.
Proof.
  split.
  - induction cs as [|c cs IH]; intros H; simpl in *; [contradiction|].
    destruct (Z.eqb_spec l c) as [->|Hne]; [eauto|].
    destruct H as [->|H]; [contradiction|].
    destruct (IH H) as [i ->]. simpl. eauto.
  - intros [i H]. apply index_of_nth in H. eapply nth_error_In; eassumption.
Qed.

Lemma transform_fitted (cs : list Z) (y : list Z) :
  (incl y cs ->
   exists codes, ViT.transform {| ViT.classes_ := Some cs |} y = Ok codes
                 /\ Forall2 (fun l i => nth_error cs i = Some l) y codes)
  /\ (~ incl y cs -> ViT.transform {| ViT.classes_ := Some cs |} y = Raise ValueError).
Proof.
  unfold ViT.transform. simpl. induction y as [|l y [IHok IHno]]; simpl.
  - split; [intros _; exists []; split; [reflexivity | constructor]|].
    intros H. exfalso. apply H. intros z [].
  - destruct (ViT.index_of l cs) as [i|] eqn:E; simpl.
    + assert (Hl : In l cs) by (apply index_of_in; eauto).
      split.
      * intros Hi. destruct IHok as [codes [Hc Hf]].
        { intros z Hz. apply Hi. now right. }
        exists (i :: codes). rewrite Hc. simpl. split; [reflexivity|].
        constructor; [now apply index_of_nth | exact Hf].
      * intros Hn. rewrite IHno; [reflexivity|].
        intros Hy. apply Hn. intros z [<-|Hz]; [exact Hl | now apply Hy].
    + split; [|reflexivity].
      intros Hi. exfalso.
      assert (Hl : In l cs) by (apply Hi; now left).
      apply index_of_in in Hl as [i Hi']. congruence.
Qed.

Lemma incl_fit (y y_train : list Z) :
  incl y (fold_right ViT.insert_unique [] y_train) <-> incl y y_train.
Proof.
  unfold incl. split; intros H a Ha; specialize (H a Ha); now apply fit_classes_in.
Qed.

(** X19.  The label encoder numbers the distinct training labels in
    ascending order: its classes are strictly increasing, hold exactly
    the training labels, and the code of a label is its position among
    them, so the codes are below the number of distinct labels and
    order-preserving. *)
Theorem fit_transform_codes (y_train : list Z) :
  exists classes codes,
    ViT.classes_ (fst (ViT.fit_transform y_train)) = Some classes
    /\ snd (ViT.fit_transform y_train) = Ok codes
    /\ StronglySorted Z.lt classes
    /\ (forall l, In l classes <-> In l y_train)
    /\ Forall2 (fun l i => nth_error classes i = Some l /\ i < length classes)
               y_train codes.
Proof.
  unfold ViT.fit_transform, ViT.fit. cbn [fst snd ViT.classes_].
  destruct (transform_fitted (fold_right ViT.insert_unique [] y_train) y_train)
    as [Hok _].
  destruct Hok as [codes [Hc Hf]]; [now apply incl_fit; apply incl_refl|].
  exists (fold_right ViT.insert_unique [] y_train), codes.
  split; [reflexivity|]. split; [exact Hc|].
  split; [apply fit_classes_sorted|]. split; [intros l; apply fit_classes_in|].
  eapply Forall2_impl; [|exact Hf]. intros l i Hl. cbv beta in Hl.
  split; [exact Hl|]. apply nth_error_Some. congruence.
Qed.

(** X20.  After a successful [train], [evaluate] gets past the label
    encoder exactly when every test label occurred in training: then it
    predicts, computes the metrics on the encoded labels and the argmax
    of the scores, prints and saves; a test label never seen in
    training raises ValueError before the network is run. *)
Theorem evaluate_after_train
  (Metrics : Type) (calculate_metrics : list nat -> list nat -> Metrics)
  (vit vit' : ViT.ViT) (y_train y_val y_test : list Z) (fitted : ViT.KerasModel)
  (x_test : batch) :
  ViT.train vit y_train y_val fitted = Ok vit' ->
  (incl y_test y_train ->
   forall scores, ViT.model_predict fitted x_test = Ok scores ->
   exists codes,
     ViT.transform (ViT.fit y_train) y_test = Ok codes
     /\ ViT.evaluate calculate_metrics vit' x_test y_test
        = ([ViT.Predict; ViT.CalculateMetrics; ViT.PrintMetricsSummary;
            ViT.SaveVisualizations],
           Ok (calculate_metrics codes (map argmax scores))))
  /\ (~ incl y_test y_train ->
      ViT.evaluate calculate_metrics vit' x_test y_test = ([], Raise ValueError)).
Proof.
  intros Ht.
  assert (Hv : ViT.model vit' = fitted /\ ViT.encoder vit' = ViT.fit y_train).
  { unfold ViT.train in Ht.
    destruct (snd (ViT.fit_transform y_train)); [|discriminate]. cbn [bind] in Ht.
    destruct (ViT.transform (fst (ViT.fit_transform y_train)) y_val); [|discriminate].
    cbn [bind] in Ht. injection Ht as <-. split; reflexivity. }
  destruct Hv as [Hm He].
  destruct (transform_fitted (fold_right ViT.insert_unique [] y_train) y_test)
    as [Hok Hno].
  unfold ViT.evaluate. rewrite He, Hm. unfold ViT.fit. split.
  - intros Hi scores Hs. destruct Hok as [codes [Hc _]]; [now apply incl_fit|].
    exists codes. split; [exact Hc|]. now rewrite Hc, Hs.
  - intros Hn. rewrite Hno; [reflexivity|]. intros Hi. apply Hn. now apply incl_fit.
Qed.

Lemma evaluate_after_train_witness :
  exists vit0 vit',
    ViT.init (23, 4) 7 Demo.network = Ok vit0
    /\ ViT.train vit0 [3; 1; 2; 1]%Z [2; 3]%Z Demo.network = Ok vit'
    /\ ViT.evaluate (fun a b : list nat => (a, b)) vit' [Demo.x] [7]%Z
       = ([], Raise ValueError).
Proof.
  do 2 eexists. split; [reflexivity|]. split; [reflexivity|].
  refine (proj2 (@evaluate_after_train _ (fun a b : list nat => (a, b)) _ _
                   [3; 1; 2; 1]%Z [2; 3]%Z [7]%Z Demo.network [Demo.x] eq_refl) _).
  intros H. specialize (H 7%Z (or_introl eq_refl)). simpl in H.
  intuition discriminate.
Defined.

(** * The masking stage in the encoder graph *)

Lemma masking_index_rejected (B L D n : nat) :
  Shape._random_masking B L D n = Raise InvalidArgumentError.
Proof.
  unfold Shape._random_masking. simpl.
  unfold Shape.concat_last. simpl. unfold Shape.shape_eqb.
  destruct (list_eq_dec Nat.eq_dec _ _) as [E|_]; [discriminate E|reflexivity].
Qed.

Lemma _random_masking_raises (M : Swin_MAE) (patches : batch) (noise : list (list Q)) :
  is_ok (_random_masking M patches noise) = false.
Proof.
  unfold _random_masking. destruct (len_keep M _) as [k|e]; [|reflexivity].
  cbn [bind]. now rewrite masking_index_rejected.
Qed.

Lemma encoder_raises (M : Swin_MAE) (x : batch) (noise : list (list Q)) :
  is_ok (encoder M x noise) = false.
Proof.
  unfold encoder.
  pose proof (_random_masking_raises M (map (map (Dense_call (patch_embed M))) x) noise) as H.
  destruct (_random_masking M _ noise); [discriminate H | reflexivity].
Qed.

Lemma model_call_raises (M : Swin_MAE) (x : batch) (noise : list (list Q)) :
  is_ok (model_call M x noise) = false.
Proof.
  unfold model_call. pose proof (encoder_raises M x noise) as H.
  destruct (encoder M x noise); [discriminate H | reflexivity].
Qed.


Lemma init_raises (built : Swin_MAE) (B n : nat) : is_ok (__init__ built B n) = false.
Proof. unfold __init__. now rewrite masking_index_rejected. Qed.

(** C3.  [evaluate] returns no predictions.  The model that line 140
    builds is not compiled, and [model.evaluate] at line 142 refuses it:
    the call raises for every object, every test set and every draw of
    noise, at line 139 when a label is out of range and at line 142
    otherwise.  Nor could line 143 deliver scores: the forward pass of
    the model raises in the masking stage, at the index tensor of line
    46, for every input; the constructor, which traces that stage,
    raises for every configuration and leaves no object to evaluate. *)
Theorem evaluate_returns_no_predictions
  (Metrics : Type) (calculate_metrics : list Z -> list nat -> Metrics)
  (loss_and_accuracy : list vec -> list vec -> Q * Q)
  (M : Swin_MAE) (x_test : batch) (y_test : list Z) (noise1 noise2 : list (list Q)) :
  is_ok (evaluate calculate_metrics loss_and_accuracy M x_test y_test noise1 noise2)
  = false
  /\ (forall y_test_enc,
         to_categorical y_test (num_classes M) = Ok y_test_enc ->
         is_ok (Model_evaluate loss_and_accuracy (Model_new (model_call M))
                  x_test y_test_enc noise1) = false)
  /\ is_ok (Model_predict (Model_new (model_call M)) x_test noise2) = false
  /\ is_ok (encoder M x_test noise2) = false
  /\ (forall (built : Swin_MAE) (B n : nat), is_ok (__init__ built B n) = false).
Proof.
  split.
  { unfold evaluate. destruct (to_categorical y_test (num_classes M)); reflexivity. }
  split; [intros; reflexivity|].
  split; [apply model_call_raises|].
  split; [apply encoder_raises|].
  apply init_raises.
Qed.

(** * The checkpoint of the linear mode *)

(** C5.  Training in mode 'linear' builds the head with
    [trainable=False], whose layers are the input, the pooling, the
    Lambda and the Dense layer.  [finetune] inspects [layers[1]], which
    is the pooling layer and not the Lambda (that is [layers[2]]): the
    encoder is marked trainable, and the only checkpoint file that the
    call ever names is finetune_model.h5, never linear_model.h5.  When
    the labels are in range the call reaches [model.fit] with that
    checkpoint; its result is then the result of the fit.  This holds
    of [train] on every object; the constructor as written returns
    none, so that no checkpoint of any name is written. *)
Theorem linear_mode_checkpoint_is_finetune_model
  (History : Type) (fit_mae : Swin_MAE -> result History)
  (fit_model : Swin_MAE -> list vec -> list vec -> result History)
  (M : Swin_MAE) (head : Dense) (y_train y_val : list Z) :
  nth_error (_add_classification_head head false) 1 = Some GlobalAveragePooling1D
  /\ nth_error (_add_classification_head head false) 2 = Some Lambda
  /\ In (SetEncoderTrainable true)
        (fst (Run.train fit_mae fit_model M "linear" head y_train y_val))
  /\ ~ In (SetEncoderTrainable false)
         (fst (Run.train fit_mae fit_model M "linear" head y_train y_val))
  /\ (forall filepath,
         In (ModelCheckpoint filepath)
            (fst (Run.train fit_mae fit_model M "linear" head y_train y_val)) ->
         filepath = path_join (model_dir M) "finetune_model.h5")
  /\ (forall y_train_enc y_val_enc,
         to_categorical y_train (num_classes M) = Ok y_train_enc ->
         to_categorical y_val (num_classes M) = Ok y_val_enc ->
         Run.train fit_mae fit_model M "linear" head y_train y_val
         = ([SetClassifier (_add_classification_head head false);
             SetEncoderTrainable true;
             ModelCheckpoint (path_join (model_dir M) "finetune_model.h5");
             Fit],
            fit_model
              (set_encoder_trainable
                 (set_classifier M (_add_classification_head head false)) true)
              y_train_enc y_val_enc))
  /\ (model_dir M = "saved_models/swin_mae"%string ->
      path_join (model_dir M) "finetune_model.h5"
      = "saved_models/swin_mae/finetune_model.h5"%string
      /\ path_join (model_dir M) "finetune_model.h5"
         <> "saved_models/swin_mae/linear_model.h5"%string)
  /\ (forall (built : Swin_MAE) (B n : nat), is_ok (__init__ built B n) = false).
Proof.
  split; [reflexivity|]. split; [reflexivity|].
  assert (Hrun : forall r, r = Run.train fit_mae fit_model M "linear" head y_train y_val ->
             In (SetEncoderTrainable true) (fst r)
             /\ ~ In (SetEncoderTrainable false) (fst r)
             /\ forall filepath, In (ModelCheckpoint filepath) (fst r) ->
                  filepath = path_join (model_dir M) "finetune_model.h5").
  { intros r ->. unfold Run.train, Run.finetune.
    change (String.eqb "linear" "pretrain") with false.
    change (String.eqb "linear" "fine-tune") with false. cbv iota.
    change (nth_error (classifier (set_classifier M (_add_classification_head head false))) 1)
      with (Some GlobalAveragePooling1D).
    cbv iota. cbn [isinstance_Lambda negb].
    change (num_classes (set_encoder_trainable
                           (set_classifier M (_add_classification_head head false)) true))
      with (num_classes M).
    change (encoder_trainable (set_encoder_trainable
                                 (set_classifier M (_add_classification_head head false)) true))
      with true.
    change (model_dir (set_encoder_trainable
                         (set_classifier M (_add_classification_head head false)) true))
      with (model_dir M).
    cbn [negb]. cbv iota.
    change ("finetune" ++ "_model.h5")%string with "finetune_model.h5"%string.
    destruct (to_categorical y_train (num_classes M)) as [a|e];
      [destruct (to_categorical y_val (num_classes M)) as [b|e]|];
      cbn [fst snd app]; (split; [simpl; tauto|]);
      (split; [simpl; intros [H|[H|H]]; try discriminate H;
               try (destruct H as [H|[H|H]]; try discriminate H; try contradiction);
               try contradiction|]);
      intros filepath Hin; simpl in Hin;
      repeat (destruct Hin as [Hin|Hin]; [try discriminate Hin|]);
      try contradiction; try (injection Hin as <-; reflexivity). }
  destruct (Hrun _ eq_refl) as [H1 [H2 H3]].
  split; [exact H1|]. split; [exact H2|]. split; [exact H3|]. split.
  - intros a b Ha Hb. unfold Run.train, Run.finetune.
    change (String.eqb "linear" "pretrain") with false.
    change (String.eqb "linear" "fine-tune") with false. cbv iota.
    change (nth_error (classifier (set_classifier M (_add_classification_head head false))) 1)
      with (Some GlobalAveragePooling1D).
    cbv iota. cbn [isinstance_Lambda negb].
    change (num_classes (set_encoder_trainable
                           (set_classifier M (_add_classification_head head false)) true))
      with (num_classes M).
    rewrite Ha, Hb. reflexivity.
  - split; [|apply init_raises].
    intros Hd. rewrite Hd. split; [reflexivity | discriminate].
Qed.

(** * The graph after the masking stage *)









(** * The positional rows of the encoder *)




(** * The reconstruction loss *)



















(** X8.  The subtraction [y_true - y_pred] of the loss refuses a
    reconstruction with fewer rows than its target: when every target
    sample has [L] rows and every predicted sample [n] rows, with [n]
    different from [L] and neither of them one (a single row would be
    broadcast), the loss raises.  [pretrain] fits the reconstruction
    model against the input itself, whose samples have all [L] rows,
    while the decoder returns as many rows as it is given. *)
Theorem mae_loss_refuses_fewer_rows (y_true y_pred : fbatch) (L n : nat) :
  y_true <> [] -> y_pred <> [] ->
  Forall (fun s : fsample => length s = L) y_true ->
  Forall (fun s : fsample => length s = n) y_pred ->
  n <> L -> n <> 1 -> L <> 1 ->
  is_ok (mae_loss y_true y_pred) = false.
Proof.
  intros Ht Hp HL Hn HnL Hn1 HL1.
  assert (Hrow : forall s s' : fsample,
             length s = L -> length s' = n ->
             bzip (bzip (fun a b => Ok (Float.b32_sub a b))) s s'
             = Raise InvalidArgumentError).
  { intros s s' Hs Hs'. unfold fsample, fvec in *.
    apply bzip_mismatch; rewrite ?Hs, ?Hs'; lia. }
  assert (E : fbatch_op Float.b32_sub y_true y_pred = Raise InvalidArgumentError).
  { unfold fbatch_op.
    destruct y_true as [|s y_true]; [contradiction|].
    destruct y_pred as [|s' y_pred]; [contradiction|].
    inversion HL as [|? ? Hs HL']; subst. inversion Hn as [|? ? Hs' Hn']; subst.
    pose proof (Hrow s s' eq_refl eq_refl) as R.
    unfold bzip at 1.
    match goal with |- context [if ?c then _ else _] => destruct c end.
    - cbn [mapM2]. rewrite R. reflexivity.
    - destruct y_true as [|t y_true].
      + cbn [mapM]. rewrite R. reflexivity.
      + destruct y_pred as [|t' y_pred].
        * cbn [mapM]. rewrite R. reflexivity.
        * reflexivity. }
  unfold mae_loss, mae_terms. now rewrite E.
Qed.

Lemma mae_loss_refuses_fewer_rows_witness :
  is_ok (mae_loss (map (fun s => map (map Demo.f32) s) [repeat [1; 0; 0; 0]%Z 23])
                  (map (fun s => map (map Demo.f32) s) [repeat [0; 0; 0; 0]%Z 5]))
  = false.
Proof.
  apply (@mae_loss_refuses_fewer_rows _ _ 23 5); try discriminate; try lia;
    repeat constructor.
Defined.

(** * The reshape of [Patches] *)

(** X15.  [Patches] accepts a batch of the configured shape that holds
    a sample, with a patch width that is not zero, exactly when the
    entries of a sample are a multiple of the patch width; otherwise
    the reshape raises.  An empty batch is accepted as it is. *)
Theorem Patches_call_accepts_iff (p L F : nat) (x : batch) :
  ViT.has_shape (L, F) x -> x <> [] -> 0 < p * F ->
  (is_ok (ViT.Patches_call p F x) = true <-> (L * F) mod (p * F) = 0)
  /\ ((L * F) mod (p * F) <> 0 -> ViT.Patches_call p F x = Raise InvalidArgumentError)
  /\ ViT.Patches_call p F [] = Ok [].
Proof.
  intros Hs HB HW.
  assert (Hno : (L * F) mod (p * F) <> 0 ->
                ViT.Patches_call p F x = Raise InvalidArgumentError)
    by (intros Hm; now apply Patches_call_refuses with (L := L)).
  split; [|split; [exact Hno | reflexivity]].
  split.
  - intros Hok. destruct (Nat.eq_dec ((L * F) mod (p * F)) 0) as [E|E]; [exact E|].
    rewrite (Hno E) in Hok. discriminate Hok.
  - intros Hm. apply Nat.Div0.div_exact in Hm.
    destruct (@Patches_call_ok p L F ((L * F) / (p * F)) x Hs HB HW) as [Hp _]; [lia|].
    now rewrite Hp.
Qed.

Lemma Patches_call_accepts_iff_witness :
  (is_ok (ViT.Patches_call 4 4 [Demo.x]) = true <-> (23 * 4) mod (4 * 4) = 0)
  /\ ((23 * 4) mod (4 * 4) <> 0 ->
      ViT.Patches_call 4 4 [Demo.x] = Raise InvalidArgumentError)
  /\ ViT.Patches_call 4 4 [] = Ok [].
Proof.
  apply (@Patches_call_accepts_iff 4 23 4 [Demo.x]).
  - repeat constructor.
  - discriminate.
  - lia.
Defined.
